(** * Verification of the reflective protobuf parser and of the layer graph
      engine (modules/protobuf_parser and modules/dnn).

    The development is a shallow embedding: every C++ function that a
    property talks about is transcribed as a Rocq function over explicit
    state.  Exceptions ([CV_Error], [CV_Assert]) become the [Raise] result,
    behaviour the C++ standard leaves undefined (null dereference, signed
    overflow, reading an indeterminate value) becomes [Undefined], and loops
    whose termination depends on the input run on fuel. *)

From Stdlib Require Import ZArith List String Ascii Bool Lia.
From Stdlib.Strings Require Import Byte.
From Stdlib Require Import DecimalString.
Import ListNotations.
Open Scope Z_scope.

(* ===================================================================== *)
(** * Results and error codes                                              *)
(* ===================================================================== *)

(** The [cv::Error] codes used by the two modules, plus [StdLength] for the
    [std::length_error] a [std::vector::resize] beyond [max_size] throws. *)
Inductive Code : Type :=
| StsParseError
| StsAssert
| StsNotImplemented
| StsBadArg
| StsError
| StsObjectNotFound
| StsInternal
| StdLength.

Inductive result (A : Type) : Type :=
| Ok (a : A)
| Raise (e : Code)
| Undefined
| NoFuel.

Arguments Ok {A} a.
Arguments Raise {A} e.
Arguments Undefined {A}.
Arguments NoFuel {A}.

Definition bind {A B : Type} (r : result A) (k : A -> result B) : result B :=
  match r with
  | Ok a => k a
  | Raise e => Raise e
  | Undefined => Undefined
  | NoFuel => NoFuel
  end.

Notation "'let*' x ':=' r 'in' k" := (bind r (fun x => k))
  (at level 10, x pattern, r at level 100, k at level 200).

(** [CV_Assert(cond)] *)
Definition CV_Assert (cond : bool) : result unit :=
  if cond then Ok tt else Raise StsAssert.

(* ===================================================================== *)
(** * Fixed width integers                                                 *)
(* ===================================================================== *)

Definition INT_MAX : Z := 2147483647.
Definition INT_MIN : Z := -2147483648.

(** Two's complement reading of the low [w] bits of [x]. *)
Definition to_signed (w : Z) (x : Z) : Z :=
  let m := x mod 2 ^ w in
  if m <? 2 ^ (w - 1) then m else m - 2 ^ w.

Definition to_unsigned (w : Z) (x : Z) : Z := x mod 2 ^ w.

(** [(int)x] for a 64 bit stream offset [x]. *)
Definition int_cast (x : Z) : Z := to_signed 32 x.

(** [a + b] on [int]: signed overflow is undefined behaviour. *)
Definition int_add (a b : Z) : result Z :=
  let r := a + b in
  if (INT_MIN <=? r) && (r <=? INT_MAX) then Ok r else Undefined.

Definition byteZ (b : byte) : Z := Z.of_N (Byte.to_N b).

(** Little endian value of a block of bytes, as [memcpy] into an integer
    leaves it on the little endian targets the library is built for. *)
Fixpoint le_value (bs : list byte) : Z :=
  match bs with
  | [] => 0
  | b :: bs' => byteZ b + 256 * le_value bs'
  end.

(* ===================================================================== *)
(** * std::istream                                                         *)
(* ===================================================================== *)

(** The byte stream is an external collaborator.  It is modelled after the
    unformatted input functions of the C++ standard library: the bytes still
    to be read, the offset of the next byte, and the [eofbit] and [failbit]
    state flags ([badbit] is never raised by an in-memory source). *)
Module IStream.

Record istream : Type := mkStream {
  pos : Z;
  rest : list byte;
  eofbit : bool;
  failbit : bool
}.

Definition open (bs : list byte) : istream := mkStream 0 bs false false.

Definition good (s : istream) : bool := negb (eofbit s) && negb (failbit s).

Definition eof (s : istream) : bool := eofbit s.

Definition setfail (s : istream) : istream :=
  mkStream (pos s) (rest s) (eofbit s) true.

Definition len (s : istream) : Z := Z.of_nat (List.length (rest s)).

(** [s.read(dst, n)]: the bytes stored and the new state.  A stream that is
    not good only gets [failbit]; a short read stores what is left and sets
    [eofbit] and [failbit]. *)
Definition read (s : istream) (n : Z) : list byte * istream :=
  if negb (good s) then ([], setfail s)
  else if n <? 0 then ([], mkStream (pos s) (rest s) true true)
  else if n <=? len s then
    (firstn (Z.to_nat n) (rest s),
     mkStream (pos s + n) (skipn (Z.to_nat n) (rest s)) false false)
  else (rest s, mkStream (pos s + len s) [] true true).

(** [s.ignore(n)]: as [read] without storing, and running into the end of
    the stream sets [eofbit] only. *)
Definition ignore (s : istream) (n : Z) : istream :=
  if negb (good s) then setfail s
  else if n <=? 0 then s
  else if n <=? len s then
    mkStream (pos s + n) (skipn (Z.to_nat n) (rest s)) false false
  else mkStream (pos s + len s) [] true false.

(** [s.tellg()]: builds a sentry, so a stream that is not good gets
    [failbit] and the answer is -1. *)
Definition tellg (s : istream) : Z * istream :=
  if good s then (pos s, s) else (-1, setfail s).

End IStream.
Import IStream.

(* ===================================================================== *)
(** * proto_terms: readBinary and readVarint                               *)
(* ===================================================================== *)

(** [readBinary(s, dst, numBytes)]: returns the bytes read (their number is
    the C++ return value). *)
Definition readBinary (s : istream) (numBytes : Z)
  : result (list byte * istream) :=
  let '(bs, s') := IStream.read s numBytes in
  let gcount := Z.of_nat (List.length bs) in
  let* _ := CV_Assert ((gcount =? numBytes) || (gcount =? 0)) in
  Ok (bs, s').

(** State of the [for] loop of [readVarint]. *)
Record varint_state : Type := mkVarint {
  vs_bytesRead : Z;
  vs_res : Z;
  vs_byte : byte;
  vs_read_next_byte : bool;
  vs_stream : istream
}.

(** [for (; bytesRead < 9 && read_next_byte; ++bytesRead)]; [n] counts the
    iterations that [bytesRead < 9] still allows. *)
Fixpoint readVarint_loop (n : nat) (st : varint_state) : result varint_state :=
  match n with
  | O => Ok st
  | S n' =>
    if vs_read_next_byte st then
      let b := byteZ (vs_byte st) in
      let read_next_byte := negb (Z.land b 128 =? 0) in
      let mask := Z.land b 127 in
      let res := Z.lor (vs_res st) (Z.shiftl mask (vs_bytesRead st * 7)) in
      if read_next_byte then
        let* (bs, s') := readBinary (vs_stream st) 1 in
        match bs with
        | [] => Raise StsParseError
        | b' :: _ =>
          readVarint_loop n' (mkVarint (vs_bytesRead st + 1) res b' true s')
        end
      else
        readVarint_loop n'
          (mkVarint (vs_bytesRead st + 1) res (vs_byte st) false (vs_stream st))
    else Ok st
  end.

(** [ProtoValue<T>::readVarint(s, dst, maxNumBytes)]: returns the 64 bit
    accumulator truncated to [maxNumBytes] bytes (what [memcpy] stores at
    [dst]), the number of bytes read and the stream. *)
Definition readVarint (s : istream) (maxNumBytes : Z)
  : result (Z * Z * istream) :=
  let* _ := CV_Assert ((0 <=? maxNumBytes) && (maxNumBytes <=? 8)) in
  let* (bs, s0) := readBinary s 1 in
  let st0 :=
    match bs with
    | [] => mkVarint 0 0 x00 false s0
    | b :: _ => mkVarint 0 0 b true s0
    end in
  let* st := readVarint_loop 9 st0 in
  let* bytesRead :=
    if vs_read_next_byte st then
      let* _ := CV_Assert (Z.land (byteZ (vs_byte st)) 128 =? 0) in
      Ok (vs_bytesRead st + 1)
    else Ok (vs_bytesRead st) in
  Ok (to_unsigned (8 * maxNumBytes) (vs_res st), bytesRead, vs_stream st).


(* ===================================================================== *)
(** * proto_terms: the field objects                                       *)
(* ===================================================================== *)

(** The type parameter [T] of [ProtoValue<T>] and [ProtoPackImpl<T>]
    ([ProtoValue<std::string>] is the separate constructor [ProtoString]). *)
Inductive PrimType : Type :=
| TInt32 | TUInt32 | TInt64 | TUInt64 | TFloat | TDouble | TBool.

Definition sizeof (T : PrimType) : Z :=
  match T with
  | TInt32 | TUInt32 | TFloat => 4
  | TInt64 | TUInt64 | TDouble => 8
  | TBool => 1
  end.

(** First branch of [ProtoValue<T>::read]: the four integer types. *)
Definition is_varint_type (T : PrimType) : bool :=
  match T with
  | TInt32 | TUInt32 | TInt64 | TUInt64 => true
  | _ => false
  end.

(** The value of type [T] whose object representation is the low
    [sizeof T] bytes of [raw].  Floating point numbers and [bool] are kept
    as their bit pattern. *)
Definition value_of_raw (T : PrimType) (raw : Z) : Z :=
  match T with
  | TInt32 => to_signed 32 raw
  | TInt64 => to_signed 64 raw
  | _ => to_unsigned (8 * sizeof T) raw
  end.

Set Warnings "-register-all".

(** [ProtobufField] and its subclasses.  A [std::map] is an association
    list searched from the front; prototypes and parsed instances are the
    same objects, as in the source. *)
Inductive ProtobufField : Type :=
| ProtoValue (T : PrimType) (value : Z)
| ProtoString (value : string)
| ProtoEnum (value : string) (packed : bool) (enumValues : list (Z * string))
| ProtoPackImpl (T : PrimType) (values : list Z)
| ProtobufMessage
    (readFields : list (string * list ProtobufField))
    (fieldsWithDefaultValue : list (string * ProtobufField))
    (fieldByTag : list (Z * ProtobufField))
    (fieldByName : list (string * ProtobufField))
    (nameByTag : list (Z * string)).

Definition ProtobufFields : Type := list ProtobufField.

Fixpoint findZ {V : Type} (k : Z) (m : list (Z * V)) : option V :=
  match m with
  | [] => None
  | (k', v) :: m' => if k' =? k then Some v else findZ k m'
  end.

Fixpoint findS {V : Type} (k : string) (m : list (string * V)) : option V :=
  match m with
  | [] => None
  | (k', v) :: m' => if String.eqb k' k then Some v else findS k m'
  end.

(** [m[k] = v] on a [std::map]. *)
Fixpoint assignS {V : Type} (k : string) (v : V) (m : list (string * V))
  : list (string * V) :=
  match m with
  | [] => [(k, v)]
  | (k', v') :: m' =>
    if String.eqb k' k then (k, v) :: m' else (k', v') :: assignS k v m'
  end.

Fixpoint assignZ {V : Type} (k : Z) (v : V) (m : list (Z * V))
  : list (Z * V) :=
  match m with
  | [] => [(k, v)]
  | (k', v') :: m' =>
    if k' =? k then (k, v) :: m' else (k', v') :: assignZ k v m'
  end.

(** [valueFromString<T>("")], the value a default constructed
    [ProtoValue<T>] holds. *)
Definition default_value : Z := 0.

(** [clone()] of each subclass. *)
Definition clone (f : ProtobufField) : ProtobufField :=
  match f with
  | ProtoValue T _ => ProtoValue T default_value
  | ProtoString _ => ProtoString EmptyString
  | ProtoEnum _ packed enumValues => ProtoEnum EmptyString packed enumValues
  | ProtoPackImpl T _ => ProtoPackImpl T []
  | ProtobufMessage _ dflt byTag byName names =>
    ProtobufMessage [] dflt byTag byName names
  end.

(** [ProtobufMessage::addField(field, name, tag, hasDefaultValue)]; on any
    other field object the member does not exist. *)
Definition addField (m : ProtobufField) (field : ProtobufField) (name : string)
    (tag : Z) (hasDefaultValue : bool) : ProtobufField :=
  match m with
  | ProtobufMessage rf dflt byTag byName names =>
    ProtobufMessage (assignS name [] rf)
      (if hasDefaultValue then assignS name field dflt else dflt)
      (assignZ tag field byTag) (assignS name field byName)
      (assignZ tag name names)
  | _ => m
  end.

Definition emptyMessage : ProtobufField := ProtobufMessage [] [] [] [] [].

(** [readFields[name].push_back(copy)], or a one element vector when the
    name is new. *)
Definition pushField (name : string) (copy : ProtobufField)
    (rf : list (string * ProtobufFields)) : list (string * ProtobufFields) :=
  match findS name rf with
  | None => assignS name [copy] rf
  | Some fs => assignS name (fs ++ [copy]) rf
  end.

(** [parseKey(s, &tag, &wireType)].  When the stream is at its end the two
    outputs are left untouched; the caller then leaves its loop without
    looking at them, so they are returned as [None]. *)
Definition parseKey (s : istream) : result (option (Z * Z) * istream) :=
  let* (raw, _, s1) := readVarint s 4 in
  if eof s1 then Ok (None, s1)
  else
    let key := value_of_raw TInt32 raw in
    let tag := Z.shiftr key 3 in
    let wireType := Z.land key 7 in
    if tag <=? 0 then Raise StsParseError
    else if negb (wireType =? 0) && negb (wireType =? 1)
            && negb (wireType =? 2) && negb (wireType =? 5)
    then Raise StsParseError
    else Ok (Some (tag, wireType), s1).

(** [ProtoValue<T>::read(s)] for the seven numeric [T]. *)
Definition ProtoValue_read (T : PrimType) (value : Z) (s : istream)
  : result (Z * istream) :=
  if is_varint_type T then
    let* (raw, _, s1) := readVarint s (sizeof T) in
    Ok (value_of_raw T raw, s1)
  else
    let* (bs, s1) := readBinary s (sizeof T) in
    match bs with
    | [] => Ok (value, s1)
    | _ => Ok (value_of_raw T (le_value bs), s1)
    end.

(** [ProtoValue<std::string>::read(s)]. *)
Definition ProtoString_read (s : istream) : result (string * istream) :=
  let* (len, s1) := ProtoValue_read TInt32 default_value s in
  if len <? 0 then Raise StsParseError
  else if negb (len =? 0) then
    let* (bs, s2) := readBinary s1 len in
    let* _ := CV_Assert (negb (Z.of_nat (List.length bs) =? 0)) in
    Ok (string_of_list_byte bs, s2)
  else Ok (EmptyString, s1).

(** Splits the payload of a fixed width pack into elements. *)
Fixpoint chunks (n : nat) (size : nat) (bs : list byte) : list (list byte) :=
  match n with
  | O => []
  | S n' => firstn size bs :: chunks n' size (skipn size bs)
  end.

(** The [while (s.tellg() < end)] loop of [ProtoPackImpl<T>::read]. *)
Fixpoint ProtoPack_loop (fuel : nat) (T : PrimType) (end_ : Z)
    (values : list Z) (s : istream) : result (list Z * istream) :=
  match fuel with
  | O => NoFuel
  | S fuel' =>
    let '(p, s1) := tellg s in
    if p <? end_ then
      let* (v, s2) := ProtoValue_read T default_value s1 in
      ProtoPack_loop fuel' T end_ (values ++ [v]) s2
    else Ok (values, s1)
  end.

(** [ProtoPackImpl<T>::read(s)].  In the fixed width branch the length is
    converted to [size_t] before [%] and [/], so a negative length asks
    [resize] for more than [max_size] elements.  For [T = bool] the member
    [values] is the bit-packed [std::vector<bool>]: [values[0]] is a proxy,
    [begin] refers to a temporary [bool] made from it, and the bytes read go
    to that one-byte temporary, so the elements keep the [false] that
    [resize] gave them; on the empty vector [values[0]] reads through a null
    pointer, and more than one byte stored at the temporary runs past it.
    In the varint branch [reserve(min(1, numBytes / 4))] is asked for a
    negative number of elements when the length is -4 or less ([/] on [int]
    truncates towards zero). *)
Definition ProtoPack_read (fuel : nat) (T : PrimType) (s : istream)
  : result (list Z * istream) :=
  let* (numBytes, s1) := ProtoValue_read TInt32 default_value s in
  if negb (is_varint_type T) then
    let unsignedBytes := to_unsigned 64 numBytes in
    let* _ := CV_Assert (unsignedBytes mod sizeof T =? 0) in
    let count := unsignedBytes / sizeof T in
    if numBytes <? 0 then Raise StdLength
    else
      match T with
      | TBool =>
        if count =? 0 then Undefined
        else
          let stored := fst (IStream.read s1 numBytes) in
          if 1 <? Z.of_nat (List.length stored) then Undefined
          else
            let* (bs, s2) := readBinary s1 numBytes in
            let* _ := CV_Assert (negb (Z.of_nat (List.length bs) =? 0)) in
            Ok (repeat 0 (Z.to_nat count), s2)
      | _ =>
        let* (bs, s2) := readBinary s1 numBytes in
        let* _ := CV_Assert (negb (Z.of_nat (List.length bs) =? 0)) in
        Ok (map (fun c => value_of_raw T (le_value c))
                (chunks (Z.to_nat count) (Z.to_nat (sizeof T)) bs), s2)
      end
  else if Z.quot numBytes 4 <? 0 then Raise StdLength
  else
    let '(p, s2) := tellg s1 in
    let* end_ := int_add (int_cast p) numBytes in
    let* (values, s3) := ProtoPack_loop fuel T end_ [] s2 in
    let '(q, s4) := tellg s3 in
    let* _ := CV_Assert (int_cast q =? end_) in
    Ok (values, s4).

(** [ProtoEnum::read(s)]. *)
Definition ProtoEnum_read (fuel : nat) (packed : bool)
    (enumValues : list (Z * string)) (s : istream) : result (string * istream) :=
  let* (id, s1) :=
    if packed then
      let* (values, s1) := ProtoPack_read fuel TInt32 s in
      let idx := Z.of_nat (List.length values) - 1 in
      let* _ := CV_Assert ((0 <=? idx) && (idx <? Z.of_nat (List.length values))) in
      Ok (nth (Z.to_nat idx) values 0, s1)
    else ProtoValue_read TInt32 default_value s in
  match findZ id enumValues with
  | None => Raise StsParseError
  | Some name => Ok (name, s1)
  end.

(** The unknown tag branch of [ProtobufMessage::read]. *)
Definition skipField (wireType : Z) (s : istream) : result istream :=
  if wireType =? 0 then
    let* (_, s1) := ProtoValue_read TInt64 default_value s in Ok s1
  else if wireType =? 1 then Ok (ignore s 8)
  else if wireType =? 2 then
    let* (skip, s1) := ProtoValue_read TInt32 default_value s in
    Ok (ignore s1 skip)
  else if wireType =? 5 then Ok (ignore s 4)
  else Ok s.

(* ===================================================================== *)
(** * proto_message: ProtobufMessage::read(std::istream&)                  *)
(* ===================================================================== *)

Definition ReadFields : Type := list (string * ProtobufFields).

Section MessageRead.

  (** The virtual call [copy->read(s)] on a cloned prototype. *)
Variable readField : ProtobufField -> istream -> result (ProtobufField * istream).
Variable fieldByTag : list (Z * ProtobufField).
Variable nameByTag : list (Z * string).

  (** [while (s.tellg() < msgEnd)].  The fields read so far are returned
      next to the result: they stay in the message when an exception leaves
      the loop. *)
Fixpoint messageLoop (fuel : nat) (msgEnd : Z) (rf : ReadFields) (s : istream)
    : result istream * ReadFields :=
    match fuel with
    | O => (NoFuel, rf)
    | S fuel' =>
      let '(p, s1) := tellg s in
      if p <? msgEnd then
        match parseKey s1 with
        | Ok (None, s2) => (Ok s2, rf)
        | Ok (Some (tag, wireType), s2) =>
          match findZ tag fieldByTag with
          | Some proto =>
            match readField (clone proto) s2 with
            | Ok (copy, s3) =>
              let name := match findZ tag nameByTag with
                          | Some n => n
                          | None => EmptyString
                          end in
              messageLoop fuel' msgEnd (pushField name copy rf) s3
            | Raise e => (Raise e, rf)
            | Undefined => (Undefined, rf)
            | NoFuel => (NoFuel, rf)
            end
          | None =>
            match skipField wireType s2 with
            | Ok s3 => messageLoop fuel' msgEnd rf s3
            | Raise e => (Raise e, rf)
            | Undefined => (Undefined, rf)
            | NoFuel => (NoFuel, rf)
            end
          end
        | Raise e => (Raise e, rf)
        | Undefined => (Undefined, rf)
        | NoFuel => (NoFuel, rf)
        end
      else (Ok s1, rf)
    end.

  (** The length prefix of an embedded message: [isEmbedded] and [msgEnd]. *)
Definition messageHeader (s : istream) : result (bool * Z * istream) :=
    let '(p0, s0) := tellg s in
    let isEmbedded := negb (int_cast p0 =? 0) in
    if isEmbedded then
      let* (numBytes, s1) := ProtoValue_read TInt32 default_value s0 in
      let '(p1, s2) := tellg s1 in
      let* msgEnd := int_add (int_cast p1) numBytes in
      Ok (true, msgEnd, s2)
    else Ok (false, INT_MAX, s0).

  (** [CV_Assert(!isEmbedded || s.eof() || (int)s.tellg() == msgEnd)] *)
Definition messageFooter (isEmbedded : bool) (msgEnd : Z) (s : istream)
    : result istream :=
    if negb isEmbedded then Ok s
    else if eof s then Ok s
    else
      let '(p, s1) := tellg s in
      let* _ := CV_Assert (int_cast p =? msgEnd) in Ok s1.

  (** Body of [ProtobufMessage::read(std::istream&)] after
      [readFields.clear()]. *)
Definition messageRead (fuel : nat) (s : istream)
    : result istream * ReadFields :=
    match messageHeader s with
    | Ok (isEmbedded, msgEnd, s1) =>
      match messageLoop fuel msgEnd [] s1 with
      | (Ok s2, rf) => (messageFooter isEmbedded msgEnd s2, rf)
      | (r, rf) => (r, rf)
      end
    | Raise e => (Raise e, [])
    | Undefined => (Undefined, [])
    | NoFuel => (NoFuel, [])
    end.

End MessageRead.

(** [ProtobufField::read(std::istream&)], dispatched on the dynamic type. *)
Fixpoint read (fuel : nat) (f : ProtobufField) (s : istream) {struct fuel}
  : result (ProtobufField * istream) :=
  match fuel with
  | O => NoFuel
  | S fuel' =>
    match f with
    | ProtoValue T value =>
      let* (v, s1) := ProtoValue_read T value s in Ok (ProtoValue T v, s1)
    | ProtoString _ =>
      let* (v, s1) := ProtoString_read s in Ok (ProtoString v, s1)
    | ProtoEnum _ packed enumValues =>
      let* (v, s1) := ProtoEnum_read fuel' packed enumValues s in
      Ok (ProtoEnum v packed enumValues, s1)
    | ProtoPackImpl T _ =>
      let* (vs, s1) := ProtoPack_read fuel' T s in Ok (ProtoPackImpl T vs, s1)
    | ProtobufMessage _ dflt byTag byName names =>
      let '(r, rf) := messageRead (read fuel') byTag names fuel' s in
      let* s1 := r in Ok (ProtobufMessage rf dflt byTag byName names, s1)
    end
  end.

(** [message.dynamicCast<ProtobufMessage>()->read(ifs)] on the root message
    of a parser: the message is updated in place, so the fields read before
    an exception stay in it.  The cast of any other field object is null. *)
Definition ProtobufMessage_read (fuel : nat) (m : ProtobufField) (s : istream)
  : result istream * ProtobufField :=
  match m with
  | ProtobufMessage _ dflt byTag byName names =>
    let '(r, rf) := messageRead (read fuel) byTag names fuel s in
    (r, ProtobufMessage rf dflt byTag byName names)
  | _ => (Undefined, m)
  end.

(* ===================================================================== *)
(** * Text format: tokens and ProtobufMessage::read(tokenIt)               *)
(* ===================================================================== *)

Open Scope string_scope.

(** [removeProtoComments(str)] of protobuf_parser.cpp. *)
Fixpoint removeProtoComments_from (isComment : bool) (str : string) : string :=
  match str with
  | EmptyString => EmptyString
  | String c str' =>
    if Ascii.eqb c "#" then removeProtoComments_from true str'
    else if isComment then
      removeProtoComments_from (negb (Ascii.eqb c "010")) str'
    else String c (removeProtoComments_from false str')
  end.

Definition removeProtoComments (str : string) : string :=
  removeProtoComments_from false str.

Definition is_separator (c : ascii) : bool :=
  Ascii.eqb c " " || Ascii.eqb c "009" || Ascii.eqb c "013"
  || Ascii.eqb c "010" || Ascii.eqb c ":" || Ascii.eqb c "034" || Ascii.eqb c ";".

Definition is_brace (c : ascii) : bool := Ascii.eqb c "{" || Ascii.eqb c "}".

Definition flushToken (token : string) (tokens : list string) : list string :=
  if String.eqb token "" then tokens else tokens ++ [token].

(** [tokenize(str)] of protobuf_parser.cpp. *)
Fixpoint tokenize_from (token : string) (tokens : list string) (str : string)
  : list string :=
  match str with
  | EmptyString => flushToken token tokens
  | String c str' =>
    if is_separator c then tokenize_from "" (flushToken token tokens) str'
    else if is_brace c then
      tokenize_from "" (flushToken token tokens ++ [String c ""]) str'
    else tokenize_from (token ++ String c "") tokens str'
  end.

Definition tokenize (str : string) : list string := tokenize_from "" [] str.

Section TextRead.

  (** [std::stringstream ss(str); ss >> value;] for the numeric [T]: the
      formatted extraction of the C++ library, which this repository uses
      and does not define. *)
Variable extract : PrimType -> string -> Z.

  (** [valueFromString<T>(str)] *)
Definition valueFromString (T : PrimType) (str : string) : result Z :=
    if String.eqb str "" then Ok 0
    else
      match T with
      | TBool =>
        if String.eqb str "true" then Ok 1
        else if String.eqb str "false" then Ok 0
        else Raise StsParseError
      | _ => Ok (extract T str)
      end.

Section TextMessage.

Variable readFieldText :
      ProtobufField -> list string -> result (ProtobufField * list string).
Variable fieldByName : list (string * ProtobufField).

    (** [while ( *tokenIt != "}")].  Dereferencing the iterator at the end
        of the token vector is undefined. *)
Fixpoint textLoop (fuel : nat) (rf : ReadFields) (tokens : list string)
      : result (list string) * ReadFields :=
      match fuel with
      | O => (NoFuel, rf)
      | S fuel' =>
        match tokens with
        | [] => (Undefined, rf)
        | fieldName :: tokens1 =>
          if String.eqb fieldName "}" then (Ok tokens, rf)
          else
            match findS fieldName fieldByName with
            | None => (Raise StsNotImplemented, rf)
            | Some proto =>
              match readFieldText (clone proto) tokens1 with
              | Ok (copy, tokens2) =>
                textLoop fuel' (pushField fieldName copy rf) tokens2
              | Raise e => (Raise e, rf)
              | Undefined => (Undefined, rf)
              | NoFuel => (NoFuel, rf)
              end
            end
        end
      end.

    (** Body of [ProtobufMessage::read(tokenIt)] after
        [readFields.clear()]. *)
Definition textMessageRead (fuel : nat) (tokens : list string)
      : result (list string) * ReadFields :=
      match tokens with
      | [] => (Undefined, [])
      | t :: tokens1 =>
        if String.eqb t "{" then
          match textLoop fuel [] tokens1 with
          | (Ok (_ :: tokens2), rf) => (Ok tokens2, rf)
          | (Ok [], rf) => (Undefined, rf)
          | (r, rf) => (r, rf)
          end
        else (Raise StsAssert, [])
      end.

End TextMessage.

  (** [ProtobufField::read(std::vector<std::string>::iterator&)].
      [ProtoEnum] inherits the reader of [ProtoString]. *)
Fixpoint readText (fuel : nat) (f : ProtobufField) (tokens : list string)
    {struct fuel} : result (ProtobufField * list string) :=
    match fuel with
    | O => NoFuel
    | S fuel' =>
      match f with
      | ProtoValue T _ =>
        match tokens with
        | [] => Undefined
        | t :: tokens1 =>
          let* v := valueFromString T t in Ok (ProtoValue T v, tokens1)
        end
      | ProtoString _ =>
        match tokens with
        | [] => Undefined
        | t :: tokens1 => Ok (ProtoString t, tokens1)
        end
      | ProtoEnum _ packed enumValues =>
        match tokens with
        | [] => Undefined
        | t :: tokens1 => Ok (ProtoEnum t packed enumValues, tokens1)
        end
      | ProtoPackImpl T values =>
        match tokens with
        | [] => Undefined
        | t :: tokens1 =>
          let* v := valueFromString T t in
          Ok (ProtoPackImpl T (match values with [] => [v] | v0 :: _ => [v0] end),
              tokens1)
        end
      | ProtobufMessage _ dflt byTag byName names =>
        let '(r, rf) := textMessageRead (readText fuel') byName fuel' tokens in
        let* tokens1 := r in
        Ok (ProtobufMessage rf dflt byTag byName names, tokens1)
      end
    end.

  (** The root message read from tokens, updated in place. *)
Definition ProtobufMessage_readText (fuel : nat) (m : ProtobufField)
      (tokens : list string) : result (list string) * ProtobufField :=
    match m with
    | ProtobufMessage _ dflt byTag byName names =>
      let '(r, rf) := textMessageRead (readText fuel) byName fuel tokens in
      (r, ProtobufMessage rf dflt byTag byName names)
    | _ => (Undefined, m)
    end.

  (** What [ProtobufParser::parse(filePath, text)] reads: the bytes of a
      binary file or the characters of a text file. *)
Inductive Source : Type :=
  | Binary (bytes : list byte)
  | Text (content : string).

  (** [ProtobufParser::parse]: the result and the root message afterwards. *)
Definition parse (fuel : nat) (message : ProtobufField) (src : Source)
    : result unit * ProtobufField :=
    match src with
    | Text content =>
      let content := "{" ++ content ++ "}" in
      let tokens := tokenize (removeProtoComments content) in
      let '(r, m) := ProtobufMessage_readText fuel message tokens in
      (let* _ := r in Ok tt, m)
    | Binary bytes =>
      let '(r, m) := ProtobufMessage_read fuel message (open bytes) in
      (let* _ := r in Ok tt, m)
    end.

End TextRead.

(* ===================================================================== *)
(** * dnn: containers                                                      *)
(* ===================================================================== *)

Open Scope Z_scope.

(** [std::map<int, V>] and [std::set<int>]: lists kept in ascending key
    order, which is the order the iterators of the source visit. *)
Module IntMap.

Section Defs.
Context {V : Type}.

Fixpoint find (k : Z) (m : list (Z * V)) : option V :=
    match m with
    | [] => None
    | (k', v) :: m' => if k' =? k then Some v else find k m'
    end.

  (** [m.insert(make_pair(k, v))]: an existing entry is kept. *)
Fixpoint insert (k : Z) (v : V) (m : list (Z * V)) : list (Z * V) :=
    match m with
    | [] => [(k, v)]
    | (k', v') :: m' =>
      if k <? k' then (k, v) :: m
      else if k =? k' then m
      else (k', v') :: insert k v m'
    end.

  (** Assignment through a reference to the element of key [k]. *)
Fixpoint update (k : Z) (v : V) (m : list (Z * V)) : list (Z * V) :=
    match m with
    | [] => [(k, v)]
    | (k', v') :: m' =>
      if k <? k' then (k, v) :: m
      else if k =? k' then (k, v) :: m'
      else (k', v') :: update k v m'
    end.

Definition keys (m : list (Z * V)) : list Z := map fst m.

  (** The key an iterator reaches from one that stood before key [k]. *)
Fixpoint next_key (k : Z) (m : list (Z * V)) : option Z :=
    match m with
    | [] => None
    | (k', _) :: m' => if k <=? k' then Some k' else next_key k m'
    end.
End Defs.

(** [std::set<int>::insert] *)
Fixpoint set_insert (x : Z) (s : list Z) : list Z :=
  match s with
  | [] => [x]
  | y :: s' =>
    if x <? y then x :: s
    else if x =? y then s
    else y :: set_insert x s'
  end.

End IntMap.

(** [std::vector<T>::resize(n)] with the value the new elements get. *)
Definition resize {T : Type} (n : nat) (d : T) (v : list T) : list T :=
  firstn n v ++ repeat d (n - List.length v).

(** [v[i] = x] for an index inside the vector. *)
Fixpoint set_nth {T : Type} (i : nat) (x : T) (v : list T) : list T :=
  match v, i with
  | [], _ => []
  | _ :: v', O => x :: v'
  | y :: v', S i' => y :: set_nth i' x v'
  end.

(* ===================================================================== *)
(** * dnn: tensors, parameters and layer instances                         *)
(* ===================================================================== *)

Definition MatShape : Type := list Z.

(** Modelled from the spec: the tensor type [cv::Mat] and shape_utils.hpp
    are not part of the sources.  A tensor has a shape and a storage block
    ([None] for the empty tensor); [shape], the element count, the reshaped
    view on the same storage and creation with a shape are the operations
    the spec lists for the tensor abstraction. *)
Record Mat : Type := mkMat {
  mat_shape : MatShape;
  mat_data : option Z
}.

Definition emptyMat : Mat := mkMat [] None.

Definition shape (m : Mat) : MatShape := mat_shape m.

Definition total (s : MatShape) : Z :=
  match s with
  | [] => 0
  | _ => fold_right Z.mul 1 s
  end.

Definition Mat_total (m : Mat) : Z := total (mat_shape m).

(** [m.reshape(1, newShape)]: a view on the same storage. *)
Definition Mat_reshape (m : Mat) (newShape : MatShape) : Mat :=
  mkMat newShape (mat_data m).

Definition MatShape_eqb (a b : MatShape) : bool :=
  if list_eq_dec Z.eq_dec a b then true else false.

(** Modelled from the spec: the parameter dictionary [Dict] of dict.hpp is
    not part of the sources.  [get] of an absent key is an error, as is
    [get<int>] of an entry that is not an integer. *)
Inductive DictValue : Type :=
| DInt (i : Z)
| DString (s : string).

Definition Dict : Type := list (string * DictValue).

Definition Dict_has (key : string) (d : Dict) : bool :=
  match findS key d with Some _ => true | None => false end.

Definition Dict_set (key : string) (v : DictValue) (d : Dict) : Dict :=
  assignS key v d.

Definition Dict_get_int (key : string) (d : Dict) : result Z :=
  match findS key d with
  | None => Raise StsObjectNotFound
  | Some (DInt i) => Ok i
  | Some _ => Raise StsAssert
  end.

(** [LayerParams]: a [Dict] with the learned blobs, a name and a type. *)
Record LayerParams : Type := mkParams {
  dict : Dict;
  blobs : list Mat;
  params_name : string;
  params_type : string
}.

Definition emptyParams : LayerParams := mkParams [] [] "" "".

Definition params_set (key : string) (v : DictValue) (p : LayerParams)
  : LayerParams :=
  mkParams (Dict_set key v (dict p)) (blobs p) (params_name p) (params_type p).

(** The virtual interface of [Layer] that allocation uses.  The output
    arguments of [getMemoryShapes] are passed by reference and may hold the
    shapes of an earlier call. *)
Record Layer : Type := mkLayer {
  getMemoryShapes :
    list MatShape -> Z -> list MatShape -> list MatShape ->
    result (bool * list MatShape * list MatShape);
  finalize : list Mat -> list Mat -> result (list Mat)
}.

(** [Layer::getMemoryShapes] and [Layer::finalize] of the base class. *)
Definition Layer_getMemoryShapes (inputs : list MatShape) (requiredOutputs : Z)
    (outputs internals : list MatShape)
  : result (bool * list MatShape * list MatShape) :=
  match inputs with
  | [] => Raise StsAssert
  | in0 :: _ =>
    Ok (false,
        repeat in0 (Z.to_nat (Z.max requiredOutputs (Z.of_nat (List.length inputs)))),
        internals)
  end.

Definition Layer_finalize (inputs : list Mat) (outputs : list Mat)
  : result (list Mat) := Ok outputs.

(** [DataLayer] overrides neither. *)
Definition DataLayer : Layer := mkLayer Layer_getMemoryShapes Layer_finalize.

(* ===================================================================== *)
(** * dnn: LayerPin, LayerData and Net::Impl                               *)
(* ===================================================================== *)

Record LayerPin : Type := mkPin { lid : Z; oid : Z }.

Definition defaultPin : LayerPin := mkPin (-1) (-1).

Definition LayerPin_valid (p : LayerPin) : bool :=
  (0 <=? lid p) && (0 <=? oid p).

Definition LayerPin_equal (p r : LayerPin) : bool :=
  (lid p =? lid r) && (oid p =? oid r).

(** [id] and [flag] are not initialised by the constructors of the source;
    [None] is the indeterminate value.  [inputBlobs] holds pointers to
    elements of the [outputBlobs] of other layers, kept as the pins they
    point to. *)
Record LayerData : Type := mkLayerData {
  ld_id : option Z;
  ld_name : string;
  ld_type : string;
  ld_params : LayerParams;
  inputBlobsId : list LayerPin;
  inputLayersId : list Z;
  requiredOutputs : list Z;
  layerInstance : option Layer;
  outputBlobs : list Mat;
  inputBlobs : list LayerPin;
  internals : list Mat;
  flag : option Z
}.

(** [LayerData()] *)
Definition LayerData_default : LayerData :=
  mkLayerData None "" "" emptyParams [] [] [] None [] [] [] None.

(** [LayerData(_id, _name, _type, _params)] *)
Definition LayerData_new (id : Z) (name type : string) (params : LayerParams)
  : LayerData :=
  mkLayerData (Some id) name type
    (mkParams (dict params) (blobs params) name type)
    [] [] [] None [] [] [] None.

Definition set_inputBlobsId (v : list LayerPin) (ld : LayerData) : LayerData :=
  mkLayerData (ld_id ld) (ld_name ld) (ld_type ld) (ld_params ld) v
    (inputLayersId ld) (requiredOutputs ld) (layerInstance ld) (outputBlobs ld)
    (inputBlobs ld) (internals ld) (flag ld).

Definition set_inputLayersId (v : list Z) (ld : LayerData) : LayerData :=
  mkLayerData (ld_id ld) (ld_name ld) (ld_type ld) (ld_params ld)
    (inputBlobsId ld) v (requiredOutputs ld) (layerInstance ld) (outputBlobs ld)
    (inputBlobs ld) (internals ld) (flag ld).

Definition set_requiredOutputs (v : list Z) (ld : LayerData) : LayerData :=
  mkLayerData (ld_id ld) (ld_name ld) (ld_type ld) (ld_params ld)
    (inputBlobsId ld) (inputLayersId ld) v (layerInstance ld) (outputBlobs ld)
    (inputBlobs ld) (internals ld) (flag ld).

Definition set_layerInstance (v : option Layer) (ld : LayerData) : LayerData :=
  mkLayerData (ld_id ld) (ld_name ld) (ld_type ld) (ld_params ld)
    (inputBlobsId ld) (inputLayersId ld) (requiredOutputs ld) v (outputBlobs ld)
    (inputBlobs ld) (internals ld) (flag ld).

Definition set_outputBlobs (v : list Mat) (ld : LayerData) : LayerData :=
  mkLayerData (ld_id ld) (ld_name ld) (ld_type ld) (ld_params ld)
    (inputBlobsId ld) (inputLayersId ld) (requiredOutputs ld) (layerInstance ld)
    v (inputBlobs ld) (internals ld) (flag ld).

Definition set_inputBlobs (v : list LayerPin) (ld : LayerData) : LayerData :=
  mkLayerData (ld_id ld) (ld_name ld) (ld_type ld) (ld_params ld)
    (inputBlobsId ld) (inputLayersId ld) (requiredOutputs ld) (layerInstance ld)
    (outputBlobs ld) v (internals ld) (flag ld).

Definition set_internals (v : list Mat) (ld : LayerData) : LayerData :=
  mkLayerData (ld_id ld) (ld_name ld) (ld_type ld) (ld_params ld)
    (inputBlobsId ld) (inputLayersId ld) (requiredOutputs ld) (layerInstance ld)
    (outputBlobs ld) (inputBlobs ld) v (flag ld).

Definition set_flag (v : option Z) (ld : LayerData) : LayerData :=
  mkLayerData (ld_id ld) (ld_name ld) (ld_type ld) (ld_params ld)
    (inputBlobsId ld) (inputLayersId ld) (requiredOutputs ld) (layerInstance ld)
    (outputBlobs ld) (inputBlobs ld) (internals ld) v.

Definition MapIdToLayerData : Type := list (Z * LayerData).

(** [Net::Impl].  [nextBlock] is the identity the next tensor storage
    allocated by [Mat::create] gets. *)
Record Impl : Type := mkImpl {
  layers : MapIdToLayerData;
  layerNameToId : list (string * Z);
  lastLayerId : Z;
  netWasAllocated : bool;
  netOutputs : list Z;
  nextBlock : Z
}.

Definition set_layers (v : MapIdToLayerData) (n : Impl) : Impl :=
  mkImpl v (layerNameToId n) (lastLayerId n) (netWasAllocated n)
    (netOutputs n) (nextBlock n).

(** [Net::Impl::Impl()] *)
Definition Impl_new : Impl :=
  let inpl :=
    mkLayerData (Some 0) "_input" "__NetInputLayer__" emptyParams
      [] [] [] (Some DataLayer) [] [] [] None in
  mkImpl [(0, inpl)] [("_input", 0)] 1 false [] 0.

(** [Impl::getLayerId(const String&)] *)
Definition getLayerId (n : Impl) (layerName : string) : Z :=
  match findS layerName (layerNameToId n) with
  | Some id => id
  | None => -1
  end.

(** [Impl::getLayerData(int)] *)
Definition getLayerData (n : Impl) (id : Z) : result LayerData :=
  match IntMap.find id (layers n) with
  | Some ld => Ok ld
  | None => Raise StsObjectNotFound
  end.

Fixpoint contains_dot (name : string) : bool :=
  match name with
  | EmptyString => false
  | String c name' => Ascii.eqb c "." || contains_dot name'
  end.

(** [map.insert] on the name index: an existing name keeps its id. *)
Definition insertName (name : string) (id : Z) (m : list (string * Z))
  : list (string * Z) :=
  match findS name m with
  | Some _ => m
  | None => m ++ [(name, id)]
  end.

(** [Net::addLayer(name, type, params)]; [++impl->lastLayerId] is an
    increment of an [int]. *)
Definition addLayer (n : Impl) (name type : string) (params : LayerParams)
  : result (Z * Impl) :=
  if contains_dot name then Raise StsBadArg
  else if 0 <=? getLayerId n name then Raise StsBadArg
  else
    let* id := int_add (lastLayerId n) 1 in
    Ok (id,
        mkImpl (IntMap.insert id (LayerData_new id name type params) (layers n))
          (insertName name id (layerNameToId n))
          id (netWasAllocated n) (netOutputs n) (nextBlock n)).

(** [Impl::addLayerInput(ld, inNum, from)] *)
Definition addLayerInput (ld : LayerData) (inNum : Z) (from : LayerPin)
  : result LayerData :=
  if inNum <? 0 then Undefined
  else
    let size := Z.of_nat (List.length (inputBlobsId ld)) in
    let* pins :=
      if size <=? inNum then
        Ok (resize (Z.to_nat (inNum + 1)) defaultPin (inputBlobsId ld))
      else
        let storedFrom := nth (Z.to_nat inNum) (inputBlobsId ld) defaultPin in
        if LayerPin_valid storedFrom && negb (LayerPin_equal storedFrom from)
        then Raise StsError
        else Ok (inputBlobsId ld) in
    Ok (set_inputBlobsId (set_nth (Z.to_nat inNum) from pins) ld).

(** [Impl::connect(outLayerId, outNum, inLayerId, inNum)] *)
Definition connect (n : Impl) (outLayerId outNum inLayerId inNum : Z)
  : result Impl :=
  let* _ := getLayerData n outLayerId in
  let* ldInp := getLayerData n inLayerId in
  let* ldInp' := addLayerInput ldInp inNum (mkPin outLayerId outNum) in
  let layers1 := IntMap.update inLayerId ldInp' (layers n) in
  match IntMap.find outLayerId layers1 with
  | None => Undefined
  | Some ldOut =>
    let ldOut' :=
      set_requiredOutputs (IntMap.set_insert outNum (requiredOutputs ldOut)) ldOut in
    Ok (set_layers (IntMap.update outLayerId ldOut' layers1) n)
  end.


(** [Net::getUnconnectedOutLayers()] *)
Definition getUnconnectedOutLayers (n : Impl) : list Z :=
  map fst
    (filter (fun e => Z.of_nat (List.length (requiredOutputs (snd e))) =? 0)
            (layers n)).

(* ===================================================================== *)
(** * torch_importer: TorchImporter::fill                                  *)
(* ===================================================================== *)


(** [TorchImporter::Module].  A module with a non empty [apiType] is a
    layer of the network; the others are containers named by [thName]. *)
Inductive Module : Type :=
  mkModule (thName apiType : string) (params : LayerParams)
           (modules : list Module).

Definition thName (m : Module) : string := let (n, _, _, _) := m in n.
Definition apiType (m : Module) : string := let (_, a, _, _) := m in a.
Definition module_params (m : Module) : LayerParams := let (_, _, p, _) := m in p.
Definition modules (m : Module) : list Module := let (_, _, _, ms) := m in ms.

(** The importer: the net being populated and [moduleCounter]. *)
Record TorchImporter : Type := mkImporter {
  net : Impl;
  moduleCounter : Z
}.

(** [toString(v)] for an [int]. *)
Definition toString (v : Z) : string := NilZero.string_of_int (Z.to_int v).

(** [generateLayerName(label)] *)
Definition generateLayerName (imp : TorchImporter) (label : string)
  : string * TorchImporter :=
  let c := moduleCounter imp + 1 in
  ("l" ++ toString c ++ "_" ++ label, mkImporter (net imp) c).

Definition imp_addLayer (imp : TorchImporter) (name type : string)
    (params : LayerParams) : result (Z * TorchImporter) :=
  let* (id, n) := addLayer (net imp) name type params in
  Ok (id, mkImporter n (moduleCounter imp)).

Definition imp_connect (imp : TorchImporter) (outLayerId outNum inLayerId inNum : Z)
  : result TorchImporter :=
  let* n := connect (net imp) outLayerId outNum inLayerId inNum in
  Ok (mkImporter n (moduleCounter imp)).

(** [std::vector<std::pair<int, Module*> >] *)
Definition AddedModules : Type := list (Z * Module).

(** [for (i = 0; i < ids.size(); i++) net.connect(ids[i], 0, id, i);] *)
Fixpoint connectAll (imp : TorchImporter) (ids : list Z) (id : Z) (i : Z)
  : result TorchImporter :=
  match ids with
  | [] => Ok imp
  | x :: ids' =>
    let* imp1 := imp_connect imp x 0 id i in
    connectAll imp1 ids' id (i + 1)
  end.

(** The search loop of the SpatialMaxUnpooling branch: the first added
    module that is a Pooling layer with the same [indices_blob_id]. *)
Fixpoint findPooling (addedModules : AddedModules) (indicesBlobId : Z)
  : result (option (Z * Module)) :=
  match addedModules with
  | [] => Ok None
  | (id, m) :: rest =>
    if String.eqb (apiType m) "Pooling"
       && Dict_has "indices_blob_id" (dict (module_params m))
    then
      let* v := Dict_get_int "indices_blob_id" (dict (module_params m)) in
      if v =? indicesBlobId then Ok (Some (id, m))
      else findPooling rest indicesBlobId
    else findPooling rest indicesBlobId
  end.

(** [module->params.set(dst, poolingLayer.second->params.get<int>(src))];
    [poolingLayer.second] is the null pointer when the search found
    nothing. *)
Definition copyPoolingParam (poolingLayer : option (Z * Module))
    (src dst : string) (p : LayerParams) : result LayerParams :=
  match poolingLayer with
  | None => Undefined
  | Some (_, pm) =>
    let* v := Dict_get_int src (dict (module_params pm)) in
    Ok (params_set dst (DInt v) p)
  end.

Section FillChildren.

  (** The recursive call [fill(module->modules[i], addedModules, id, out)]. *)
Variable fillChild :
Module -> AddedModules -> Z -> Z -> TorchImporter ->
    result (Z * AddedModules * TorchImporter).

  (** Sequential: [prevLayerId = fill(...); prevOutNum = 0;] *)
Fixpoint fillSequential (ms : list Module) (am : AddedModules)
      (prevLayerId prevOutNum : Z) (imp : TorchImporter)
    : result (Z * AddedModules * TorchImporter) :=
    match ms with
    | [] => Ok (prevLayerId, am, imp)
    | m :: ms' =>
      let* (id, am1, imp1) := fillChild m am prevLayerId prevOutNum imp in
      fillSequential ms' am1 id 0 imp1
    end.

  (** Concat: [newId = fill(..., splitId, i); net.connect(newId, 0, mergeId, i);] *)
Fixpoint fillConcat (ms : list Module) (am : AddedModules)
      (splitId mergeId i : Z) (imp : TorchImporter)
    : result (AddedModules * TorchImporter) :=
    match ms with
    | [] => Ok (am, imp)
    | m :: ms' =>
      let* (newId, am1, imp1) := fillChild m am splitId i imp in
      let* imp2 := imp_connect imp1 newId 0 mergeId i in
      fillConcat ms' am1 splitId mergeId (i + 1) imp2
    end.

  (** Parallel: [net.connect(splitId, i, reshapeId, i);
      newId = fill(..., reshapeId, i); net.connect(newId, 0, mergeId, i);] *)
Fixpoint fillParallel (ms : list Module) (am : AddedModules)
      (splitId reshapeId mergeId i : Z) (imp : TorchImporter)
    : result (AddedModules * TorchImporter) :=
    match ms with
    | [] => Ok (am, imp)
    | m :: ms' =>
      let* imp0 := imp_connect imp splitId i reshapeId i in
      let* (newId, am1, imp1) := fillChild m am reshapeId i imp0 in
      let* imp2 := imp_connect imp1 newId 0 mergeId i in
      fillParallel ms' am1 splitId reshapeId mergeId (i + 1) imp2
    end.

  (** ConcatTable: [newId = fill(..., splitId, i);]; [newId] is the value
      of the last iteration, indeterminate when there is no child. *)
Fixpoint fillConcatTable (ms : list Module) (am : AddedModules)
      (splitId i : Z) (newId : option Z) (imp : TorchImporter)
    : result (option Z * AddedModules * TorchImporter) :=
    match ms with
    | [] => Ok (newId, am, imp)
    | m :: ms' =>
      let* (id, am1, imp1) := fillChild m am splitId i imp in
      fillConcatTable ms' am1 splitId (i + 1) (Some id) imp1
    end.

End FillChildren.

(** [TorchImporter::fill(module, addedModules, prevLayerId, prevOutNum)].
    The parameters written into a SpatialMaxUnpooling module are those the
    new layer is created with. *)
Fixpoint fill (module : Module) (addedModules : AddedModules)
    (prevLayerId prevOutNum : Z) (imp : TorchImporter)
  : result (Z * AddedModules * TorchImporter) :=
  match module with
  | mkModule thName apiType params modules =>
    if negb (String.eqb apiType "") then
      let '(name, imp0) := generateLayerName imp apiType in
      let* (newLayerId, imp1) := imp_addLayer imp0 name apiType params in
      let* imp2 := imp_connect imp1 prevLayerId prevOutNum newLayerId 0 in
      Ok (newLayerId, (addedModules ++ [(newLayerId, module)])%list, imp2)
    else if String.eqb thName "Sequential" then
      fillSequential fill modules addedModules prevLayerId prevOutNum imp
    else if String.eqb thName "Concat" then
      let* dimension := Dict_get_int "dimension" (dict params) in
      let* axis := int_add dimension (-1) in
      let mergeParams := params_set "axis" (DInt axis) emptyParams in
      let '(splitName, imp0) := generateLayerName imp "torchSplit" in
      let* (splitId, imp1) := imp_addLayer imp0 splitName "Split" emptyParams in
      let '(mergeName, imp2) := generateLayerName imp1 "torchMerge" in
      let* (mergeId, imp3) := imp_addLayer imp2 mergeName "Concat" mergeParams in
      let* imp4 := imp_connect imp3 prevLayerId prevOutNum splitId 0 in
      let* (am, imp5) := fillConcat fill modules addedModules splitId mergeId 0 imp4 in
      Ok (mergeId, (am ++ [(mergeId, module)])%list, imp5)
    else if String.eqb thName "Parallel" then
      let* inputDimension := Dict_get_int "inputDimension" (dict params) in
      let* splitAxis := int_add inputDimension (-1) in
      let splitParams := params_set "axis" (DInt splitAxis) emptyParams in
      let* outputDimension := Dict_get_int "outputDimension" (dict params) in
      let* mergeAxis := int_add outputDimension (-1) in
      let mergeParams := params_set "axis" (DInt mergeAxis) emptyParams in
      let* reshapeAxis := Dict_get_int "axis" (dict splitParams) in
      let reshapeParams :=
        params_set "num_axes" (DInt 1)
          (params_set "axis" (DInt reshapeAxis) emptyParams) in
      let '(splitName, imp0) := generateLayerName imp "torchSplit" in
      let* (splitId, imp1) := imp_addLayer imp0 splitName "Slice" splitParams in
      let '(mergeName, imp2) := generateLayerName imp1 "torchMerge" in
      let* (mergeId, imp3) := imp_addLayer imp2 mergeName "Concat" mergeParams in
      let '(reshapeName, imp4) := generateLayerName imp3 "torchReshape" in
      let* (reshapeId, imp5) :=
        imp_addLayer imp4 reshapeName "Reshape" reshapeParams in
      let* imp6 := imp_connect imp5 prevLayerId prevOutNum splitId 0 in
      let* (am, imp7) :=
        fillParallel fill modules addedModules splitId reshapeId mergeId 0 imp6 in
      Ok (mergeId, (am ++ [(mergeId, module)])%list, imp7)
    else if String.eqb thName "ConcatTable" then
      let '(splitName, imp0) := generateLayerName imp "torchSplit" in
      let* (splitId, imp1) := imp_addLayer imp0 splitName "Split" emptyParams in
      let* imp2 := imp_connect imp1 prevLayerId prevOutNum splitId 0 in
      let* (newId, am, imp3) :=
        fillConcatTable fill modules (addedModules ++ [(splitId, module)])%list
          splitId 0 None imp2 in
      match newId with
      | Some id => Ok (id, am, imp3)
      | None => Undefined
      end
    else if String.eqb thName "JoinTable" then
      let ids := getUnconnectedOutLayers (net imp) in
      let* dimension := Dict_get_int "dimension" (dict params) in
      let* axis := int_add dimension (-1) in
      let mergeParams := params_set "axis" (DInt axis) emptyParams in
      let '(mergeName, imp0) := generateLayerName imp "torchMerge" in
      let* (mergeId, imp1) := imp_addLayer imp0 mergeName "Concat" mergeParams in
      let* imp2 := connectAll imp1 ids mergeId 0 in
      Ok (mergeId, (addedModules ++ [(mergeId, module)])%list, imp2)
    else if String.eqb thName "CAddTable" then
      let '(name, imp0) := generateLayerName imp "torchCAddTable" in
      let ids := getUnconnectedOutLayers (net imp0) in
      let eltParams := params_set "operation" (DString "sum") emptyParams in
      let* (id, imp1) := imp_addLayer imp0 name "Eltwise" eltParams in
      let* imp2 := connectAll imp1 ids id 0 in
      Ok (id, (addedModules ++ [(id, module)])%list, imp2)
    else if String.eqb thName "SpatialMaxUnpooling" then
      let* _ := CV_Assert (Dict_has "indices_blob_id" (dict params)) in
      let* indicesBlobId := Dict_get_int "indices_blob_id" (dict params) in
      let* poolingLayer := findPooling addedModules indicesBlobId in
      let* p1 := copyPoolingParam poolingLayer "kernel_h" "pool_k_h" params in
      let* p2 := copyPoolingParam poolingLayer "kernel_w" "pool_k_w" p1 in
      let* p3 := copyPoolingParam poolingLayer "stride_h" "pool_stride_h" p2 in
      let* p4 := copyPoolingParam poolingLayer "stride_w" "pool_stride_w" p3 in
      let* p5 := copyPoolingParam poolingLayer "pad_h" "pool_pad_h" p4 in
      let* p6 := copyPoolingParam poolingLayer "pad_w" "pool_pad_w" p5 in
      let '(name, imp0) := generateLayerName imp "torchMaxUnpooling" in
      let* (id, imp1) := imp_addLayer imp0 name "MaxUnpool" p6 in
      let* imp2 := imp_connect imp1 prevLayerId 0 id 0 in
      let poolingId := match poolingLayer with Some (i, _) => i | None => -1 end in
      let* _ := CV_Assert (negb (poolingId =? -1)) in
      let* imp3 := imp_connect imp2 poolingId 1 id 1 in
      Ok (id, addedModules, imp3)
    else Raise StsInternal
  end.

(** [populateNet(net_)] once the module tree has been read. *)
Definition populateNet (rootModule : Module) (net_ : Impl)
  : result (Z * AddedModules * TorchImporter) :=
  fill rootModule [] 0 0 (mkImporter net_ 0).

(* ===================================================================== *)
(** * dnn: shape inference and allocation                                  *)
(* ===================================================================== *)

(** [Net::Impl::LayerShapes] *)
Record LayerShapes : Type := mkShapes {
  sh_in : list MatShape;
  sh_out : list MatShape;
  sh_internal : list MatShape;
  sh_inplace : bool
}.

Definition LayerShapes_default : LayerShapes := mkShapes [] [] [] false.

Definition LayersShapesMap : Type := list (Z * LayerShapes).

(** [m[k]] on a map: the element, default constructed when absent, and the
    map that holds it. *)
Definition map_at {V : Type} (d : V) (k : Z) (m : list (Z * V))
  : V * list (Z * V) :=
  match IntMap.find k m with
  | Some v => (v, m)
  | None => (d, IntMap.insert k d m)
  end.

(** [m.create(shape, CV_32F)]: new storage of the given shape. *)
Definition Mat_create (sh : MatShape) (n : Impl) : Mat * Impl :=
  (mkMat sh (Some (nextBlock n)),
   mkImpl (layers n) (layerNameToId n) (lastLayerId n) (netWasAllocated n)
     (netOutputs n) (nextBlock n + 1)).

(** The tensor an element of [inputBlobs] points to. *)
Definition deref (n : Impl) (p : LayerPin) : option Mat :=
  match IntMap.find (lid p) (layers n) with
  | None => None
  | Some ld =>
    if (0 <=? oid p) && (oid p <? Z.of_nat (List.length (outputBlobs ld)))
    then nth_error (outputBlobs ld) (Z.to_nat (oid p))
    else None
  end.

Fixpoint derefAll (n : Impl) (ps : list LayerPin) : option (list Mat) :=
  match ps with
  | [] => Some []
  | p :: ps' =>
    match deref n p, derefAll n ps' with
    | Some m, Some ms => Some (m :: ms)
    | _, _ => None
    end
  end.

(** [Net::setBlob(outputName, blob_)] once [getPinByAlias(outputName)] has
    resolved the name to the pin [pin]; [blob_.clone()] is new storage. *)
Definition setBlob (n : Impl) (pin : LayerPin) (blob_ : Mat) : result Impl :=
  if negb (LayerPin_valid pin) then Raise StsObjectNotFound
  else
    let '(ld, layers1) := map_at LayerData_default (lid pin) (layers n) in
    let outs :=
      resize (Z.to_nat (Z.max (oid pin + 1)
                              (Z.of_nat (List.length (requiredOutputs ld)))))
             emptyMat (outputBlobs ld) in
    let prevShape := shape (nth (Z.to_nat (oid pin)) outs emptyMat) in
    let copy := mkMat (mat_shape blob_) (Some (nextBlock n)) in
    let ld' := set_outputBlobs (set_nth (Z.to_nat (oid pin)) copy outs) ld in
    Ok (mkImpl (IntMap.update (lid pin) ld' layers1) (layerNameToId n)
          (lastLayerId n)
          (netWasAllocated n && MatShape_eqb prevShape (shape blob_))
          (netOutputs n) (nextBlock n + 1)).

Section Allocation.

  (** [LayerFactory::createLayerInstance(type, params)]: the process wide
      registry of layer constructors, [None] for the null pointer. *)
Variable createLayerInstance : string -> LayerParams -> option Layer.

  (** [LayerData::getLayerInstance()] *)
Definition getLayerInstance (ld : LayerData) : result (Layer * LayerData) :=
    match layerInstance ld with
    | Some l => Ok (l, ld)
    | None =>
      match createLayerInstance (ld_type ld) (ld_params ld) with
      | Some l => Ok (l, set_layerInstance (Some l) ld)
      | None => Raise StsError
      end
    end.

Definition set_in (v : list MatShape) (s : LayerShapes) : LayerShapes :=
    mkShapes v (sh_out s) (sh_internal s) (sh_inplace s).

Section ShapesOfInputs.

    (** The recursive call [getLayerShapesRecursively(layerId, inOutShapes)]. *)
Variable recurse : Z -> LayersShapesMap -> Impl -> result (LayersShapesMap * Impl).

    (** The loop over the input pins of layer [id], which appends one shape
        per pin to [inOutShapes[id].in]. *)
Fixpoint collectInputShapes (id : Z) (pins : list LayerPin)
        (sh : LayersShapesMap) (n : Impl) : result (LayersShapesMap * Impl) :=
      match pins with
      | [] => Ok (sh, n)
      | pin :: pins' =>
        let layerId := lid pin in
        let* (sh1, n1) :=
          match IntMap.find layerId sh with
          | Some s => if Nat.eqb (List.length (sh_out s)) 0
                      then recurse layerId sh n else Ok (sh, n)
          | None => recurse layerId sh n
          end in
        let '(producer, sh2) := map_at LayerShapes_default layerId sh1 in
        if (oid pin <? 0) || (Z.of_nat (List.length (sh_out producer)) <=? oid pin)
        then Undefined
        else
          let shape := nth (Z.to_nat (oid pin)) (sh_out producer) [] in
          let '(mine, sh3) := map_at LayerShapes_default id sh2 in
          let sh4 := IntMap.update id (set_in (sh_in mine ++ [shape])%list mine) sh3 in
          collectInputShapes id pins' sh4 n1
      end.

End ShapesOfInputs.

  (** [Impl::getLayerShapesRecursively(id, inOutShapes)] *)
Fixpoint getLayerShapesRecursively (fuel : nat) (id : Z)
      (inOutShapes : LayersShapesMap) (n : Impl) {struct fuel}
    : result (LayersShapesMap * Impl) :=
    match fuel with
    | O => NoFuel
    | S fuel' =>
      let '(ld, layers1) := map_at LayerData_default id (layers n) in
      let n1 := set_layers layers1 n in
      let '(mine, sh1) := map_at LayerShapes_default id inOutShapes in
      let* (sh2, n2) :=
        if Nat.eqb (List.length (sh_in mine)) 0 then
          collectInputShapes (getLayerShapesRecursively fuel') id
            (inputBlobsId ld) sh1 n1
        else Ok (sh1, n1) in
      let '(mine2, sh3) := map_at LayerShapes_default id sh2 in
      let '(ld2, layers2) := map_at LayerData_default id (layers n2) in
      let requiredOutputs := Z.of_nat (List.length (requiredOutputs ld2)) in
      let* (inst, ld3) := getLayerInstance ld2 in
      let n3 := set_layers (IntMap.update id ld3 layers2) n2 in
      let* (inplace, os, ints) :=
        getMemoryShapes inst (sh_in mine2) requiredOutputs
          (sh_out mine2) (sh_internal mine2) in
      Ok (IntMap.update id (mkShapes (sh_in mine2) os ints inplace) sh3, n3)
    end.

  (** The loop of [getLayersShapes] over [layers]; [k] is a lower bound of
      the keys still to visit, as insertions do not disturb the iterator. *)
Fixpoint getLayersShapes_loop (fuel : nat) (k : Z) (sh : LayersShapesMap)
      (n : Impl) : result (LayersShapesMap * Impl) :=
    match fuel with
    | O => NoFuel
    | S fuel' =>
      match IntMap.next_key k (layers n) with
      | None => Ok (sh, n)
      | Some id =>
        let* (sh1, n1) := getLayerShapesRecursively fuel' id sh n in
        getLayersShapes_loop fuel' (id + 1) sh1 n1
      end
    end.

  (** First key of the map, where [layers.begin()] stands. *)
Definition first_key {V : Type} (m : list (Z * V)) : Z :=
    match m with
    | [] => 0
    | (k, _) :: _ => k
    end.

  (** [Impl::getLayersShapes(netInputShapes, inOutShapes)] *)
Definition getLayersShapes (fuel : nat) (netInputShapes : list MatShape)
      (n : Impl) : result (LayersShapesMap * Impl) :=
    let sh0 := [(0, set_in netInputShapes LayerShapes_default)] in
    getLayersShapes_loop fuel (first_key (layers n)) sh0 n.

  (** The binding loop of [allocateLayer]:
      [CV_Assert(from.valid()); ld.inputBlobs[i] = &layers[from.lid].outputBlobs[from.oid];]
      Forming the address of an element past the end of the vector is
      undefined. *)
Fixpoint bindInputs (n : Impl) (pins : list LayerPin) : result (list LayerPin) :=
    match pins with
    | [] => Ok []
    | from :: pins' =>
      let* _ := CV_Assert (LayerPin_valid from) in
      match deref n from with
      | None => Undefined
      | Some _ => let* ps := bindInputs n pins' in Ok (from :: ps)
      end
    end.

  (** The loop of [allocateLayer] over [outShapes]; [done] are the outputs
      already visited, [todo] the outputs from index [i] on. *)
Fixpoint allocateOutputs (inplace : bool) (inputs : list Mat) (nOutputs : nat)
      (i : nat) (outShapes : list MatShape) (done todo : list Mat) (n : Impl)
    : result (list Mat * Impl) :=
    match outShapes, todo with
    | [], _ => Ok ((done ++ todo)%list, n)
    | _ :: _, [] => Undefined
    | sh :: outShapes', blob :: todo' =>
      if negb (MatShape_eqb (shape blob) sh) then
        if inplace then
          let* _ := CV_Assert (Nat.eqb (List.length inputs) nOutputs) in
          match nth_error inputs i with
          | None => Undefined
          | Some inp =>
            let* _ := CV_Assert (Mat_total inp =? total sh) in
            allocateOutputs inplace inputs nOutputs (S i) outShapes'
              (done ++ [Mat_reshape inp sh])%list todo' n
          end
        else
          let '(m, n1) := Mat_create sh n in
          allocateOutputs inplace inputs nOutputs (S i) outShapes'
            (done ++ [m])%list todo' n1
      else
        allocateOutputs inplace inputs nOutputs (S i) outShapes'
          (done ++ [blob])%list todo' n
    end.

  (** The loop of [allocateLayer] over [intShapes]. *)
Fixpoint allocateInternals (intShapes : list MatShape) (done todo : list Mat)
      (n : Impl) : result (list Mat * Impl) :=
    match intShapes, todo with
    | [], _ => Ok ((done ++ todo)%list, n)
    | _ :: _, [] => Undefined
    | sh :: intShapes', blob :: todo' =>
      if negb (MatShape_eqb (shape blob) sh) && negb (total sh =? 0) then
        let '(m, n1) := Mat_create sh n in
        allocateInternals intShapes' (done ++ [m])%list todo' n1
      else allocateInternals intShapes' (done ++ [blob])%list todo' n
    end.

  (** [for (i = ld.inputLayersId.begin(); ...) allocateLayer( *i, layersShapes);] *)
Fixpoint allocateParents (alloc : Z -> Impl -> result Impl) (parents : list Z)
      (n : Impl) : result Impl :=
    match parents with
    | [] => Ok n
    | p :: parents' =>
      let* n1 := alloc p n in allocateParents alloc parents' n1
    end.

  (** What [allocateLayer] does to layer [id] once its parents are
      allocated. *)
Definition allocateBody (id : Z) (layersShapes : LayersShapesMap) (n : Impl)
    : result Impl :=
    match IntMap.find id (layers n) with
    | None => Undefined
    | Some ld =>
      let* pins := bindInputs n (inputBlobsId ld) in
      let ld1 := set_inputBlobs pins ld in
      match IntMap.find id layersShapes with
      | None => Raise StsAssert
      | Some shapes =>
        let outShapes := sh_out shapes in
        let* _ := CV_Assert (Nat.leb (List.length (requiredOutputs ld1))
                                     (List.length outShapes)) in
        let nOutputs := Nat.max 1 (List.length outShapes) in
        let outs0 := resize nOutputs emptyMat (outputBlobs ld1) in
        match derefAll (set_layers (IntMap.update id (set_outputBlobs outs0 ld1)
                                      (layers n)) n) pins with
        | None => Undefined
        | Some inputs =>
          let* (outs, n1) :=
            allocateOutputs (sh_inplace shapes) inputs nOutputs 0 outShapes
              [] outs0 n in
          let ints0 :=
            resize (List.length (sh_internal shapes)) emptyMat (internals ld1) in
          let* (ints, n2) := allocateInternals (sh_internal shapes) [] ints0 n1 in
          let* (layerPtr, ld2) :=
            getLayerInstance (set_internals ints (set_outputBlobs outs ld1)) in
          let n3 := set_layers (IntMap.update id ld2 (layers n2)) n2 in
          match derefAll n3 pins with
          | None => Undefined
          | Some inputs' =>
            let* outs' := finalize layerPtr inputs' outs in
            Ok (set_layers
                  (IntMap.update id (set_flag (Some 1) (set_outputBlobs outs' ld2))
                     (layers n3)) n3)
          end
        end
      end
    end.

  (** [Impl::allocateLayer(id, layersShapes)] *)
Fixpoint allocateLayer (fuel : nat) (layersShapes : LayersShapesMap) (id : Z)
      (n : Impl) {struct fuel} : result Impl :=
    match fuel with
    | O => NoFuel
    | S fuel' =>
      let '(ld, layers1) := map_at LayerData_default id (layers n) in
      match flag ld with
      | None => Undefined
      | Some f =>
        if negb (f =? 0) then Ok (set_layers layers1 n)
        else
          let parents :=
            fold_left (fun s p => IntMap.set_insert (lid p) s)
                      (inputBlobsId ld) (inputLayersId ld) in
          let n1 :=
            set_layers (IntMap.update id (set_inputLayersId parents ld) layers1) n in
          let* n2 := allocateParents (allocateLayer fuel' layersShapes) parents n1 in
          allocateBody id layersShapes n2
      end
    end.

  (** [Impl::allocateLayers()] *)
Definition allocateLayers (fuel : nat) (n : Impl) : result Impl :=
    let n0 := set_layers (map (fun e => (fst e, set_flag (Some 0) (snd e)))
                              (layers n)) n in
    let '(inpl, layers1) := map_at LayerData_default 0 (layers n0) in
    let n1 := set_layers layers1 n0 in
    let* _ := CV_Assert (negb (Nat.eqb (List.length (outputBlobs inpl)) 0)) in
    let* _ := CV_Assert (forallb (fun m => negb (Mat_total m =? 0))
                                 (outputBlobs inpl)) in
    let inputShapes := map shape (outputBlobs inpl) in
    let* (layersShapes, n2) := getLayersShapes fuel inputShapes n1 in
    allocateParents (allocateLayer fuel layersShapes) (IntMap.keys (layers n2)) n2.

  (** [Impl::computeNetOutputLayers()] *)
Definition computeNetOutputLayers (n : Impl) : Impl :=
    mkImpl (layers n) (layerNameToId n) (lastLayerId n) (netWasAllocated n)
      (getUnconnectedOutLayers n) (nextBlock n).

  (** [Impl::setUpNet()], which is all [Net::allocate()] does. *)
Definition setUpNet (fuel : nat) (n : Impl) : result Impl :=
    if negb (netWasAllocated n) then
      let* n1 := allocateLayers fuel n in
      let n2 := computeNetOutputLayers n1 in
      Ok (mkImpl (layers n2) (layerNameToId n2) (lastLayerId n2) true
            (netOutputs n2) (nextBlock n2))
    else Ok n.

End Allocation.

(* ===================================================================== *)
(** * Vocabulary of the statements                                         *)
(* ===================================================================== *)

(** The continuation marker of a varint byte: its top bit. *)
Definition continues (b : byte) : bool := negb (Z.land (byteZ b) 128 =? 0).

(** The value carried by a run of varint bytes: the low seven bits of the
    byte of index [j] at bit offset [7 * (i + j)]. *)
Fixpoint varint_bits (i : Z) (bs : list byte) : Z :=
  match bs with
  | [] => 0
  | b :: bs' =>
    Z.lor (Z.shiftl (Z.land (byteZ b) 127) (i * 7)) (varint_bits (i + 1) bs')
  end.



(** The container tree Sequential [ ConcatTable [ A, B ], CAddTable ]. *)
Definition concatTableOf (A B : Module) : Module :=
  mkModule "ConcatTable" "" emptyParams [A; B].

Definition sumOfBranches (A B : Module) : Module :=
  mkModule "Sequential" "" emptyParams
    [concatTableOf A B; mkModule "CAddTable" "" emptyParams []].

(** A module that [fill] turns into one layer named after its type. *)
Definition is_leaf (m : Module) : Prop :=
  apiType m <> EmptyString /\ contains_dot (apiType m) = false.

(* ===================================================================== *)
(** * Example messages                                                     *)
(* ===================================================================== *)

(** A message with the one field [flag], tag 1, of type bool; the same with
    the field of type int32; and a message that has no field of tag 1. *)
Definition boolMessage : ProtobufField :=
  addField emptyMessage (ProtoValue TBool 0) "flag" 1 false.

Definition int32Message : ProtobufField :=
  addField emptyMessage (ProtoValue TInt32 0) "flag" 1 false.

Definition otherMessage : ProtobufField :=
  addField emptyMessage (ProtoValue TInt32 0) "other" 2 false.


(* ===================================================================== *)
(** * Wire-format vocabulary                                               *)
(* ===================================================================== *)

(** The bytes of one field after its key, by wire type: a varint of at
    most ten bytes, eight bytes, a length-delimited block, four bytes. *)
Inductive field_payload : Z -> list byte -> Prop :=
| payload_varint body last :
    forallb continues body = true -> continues last = false ->
    (List.length body <= 9)%nat ->
    field_payload 0 (body ++ [last])
| payload_fixed64 bs : List.length bs = 8%nat -> field_payload 1 bs
| payload_delimited body last data :
    forallb continues body = true -> continues last = false ->
    (List.length body <= 8)%nat ->
    varint_bits 0 (body ++ [last]) = Z.of_nat (List.length data) ->
    Z.of_nat (List.length data) <= INT_MAX ->
    field_payload 2 ((body ++ [last]) ++ data)
| payload_fixed32 bs : List.length bs = 4%nat -> field_payload 5 bs.

(** The key read from a run of varint bytes, as [parseKey] reads it: an
    int32. *)
Definition key_of (bs : list byte) : Z :=
  value_of_raw TInt32 (to_unsigned 32 (varint_bits 0 bs)).


(** The byte of value [x], for 0 <= x < 256. *)
Definition byte_of_Z (x : Z) : byte :=
  match Byte.of_N (Z.to_N x) with Some b => b | None => x00 end.

(** The base-128 encoding of [v], least significant group first, in at
    most [n + 1] bytes: every byte but the last has its top bit set. *)
Fixpoint varint_encode (n : nat) (v : Z) : list byte :=
  match n with
  | O => [byte_of_Z v]
  | S n' =>
    if v <? 128 then [byte_of_Z v]
    else byte_of_Z (v mod 128 + 128) :: varint_encode n' (v / 128)
  end.



(* ===================================================================== *)
(** * proto_message: operator[], has and remove                            *)
(* ===================================================================== *)

(** [ProtobufNode]: the vector [nodes]. *)
Definition ProtobufNode : Type := list ProtobufField.

(** [ProtobufMessage::operator[](name)]: the fields read under the name,
    else the field holding the default value, else an empty node.  On a
    field object that is no message the cast of the callers is null. *)
Definition ProtobufMessage_at (m : ProtobufField) (name : string)
  : result ProtobufNode :=
  match m with
  | ProtobufMessage rf dflt _ _ _ =>
    match findS name rf with
    | Some fs => Ok fs
    | None =>
      match findS name dflt with
      | Some f => Ok [f]
      | None => Ok []
      end
    end
  | _ => Undefined
  end.

(** [ProtobufMessage::has(name)] *)
Definition ProtobufMessage_has (m : ProtobufField) (name : string)
  : result bool :=
  match m with
  | ProtobufMessage rf _ _ _ _ =>
    Ok (match findS name rf with Some _ => true | None => false end)
  | _ => Undefined
  end.

(** [v.erase(v.begin() + idx)] *)
Fixpoint erase {T : Type} (idx : nat) (v : list T) : list T :=
  match v, idx with
  | [], _ => []
  | _ :: v', O => v'
  | x :: v', S i => x :: erase i v'
  end.

(** [ProtobufMessage::remove(name, idx)] *)
Definition ProtobufMessage_remove (m : ProtobufField) (name : string) (idx : Z)
  : result ProtobufField :=
  match m with
  | ProtobufMessage rf dflt byTag byName names =>
    match findS name rf with
    | None => Raise StsAssert
    | Some fs =>
      let* _ := CV_Assert ((0 <=? idx)
                           && (idx <? int_cast (Z.of_nat (List.length fs)))) in
      Ok (ProtobufMessage (assignS name (erase (Z.to_nat idx) fs) rf)
            dflt byTag byName names)
    end
  | _ => Undefined
  end.

(** Every name of the table of fields read holds at least one field. *)
Definition filled (rf : ReadFields) : Prop :=
  forall name fs, findS name rf = Some fs -> fs <> [].


(** The payload of a packed field of an integer type: the encodings of its
    elements one after the other. *)
Definition pack_payload (vs : list Z) : list byte :=
  List.concat (map (varint_encode 8) vs).

(** The element type [T] reads the encoded [v] as this value. *)
Definition decoded (T : PrimType) (v : Z) : Z :=
  value_of_raw T (to_unsigned (8 * sizeof T) v).


(* ===================================================================== *)
(** * Text vocabulary                                                      *)
(* ===================================================================== *)

(** No character of the string is a separator or a brace. *)
Fixpoint plain (t : string) : bool :=
  match t with
  | EmptyString => true
  | String c t' => negb (is_separator c) && negb (is_brace c) && plain t'
  end.

(** A token is a single brace or a non-empty run of plain characters. *)
Definition token_ok (t : string) : Prop :=
  t = "{" \/ t = "}" \/ (t <> "" /\ plain t = true).

(** The text without its separator characters. *)
Fixpoint strip (str : string) : string :=
  match str with
  | EmptyString => EmptyString
  | String c str' => if is_separator c then strip str' else String c (strip str')
  end.

(** The tokens written one after the other. *)
Definition flatten (tokens : list string) : string :=
  fold_right String.append EmptyString tokens.

(** The character does not occur in the string. *)
Fixpoint lacks (c : ascii) (str : string) : bool :=
  match str with
  | EmptyString => true
  | String d str' => negb (Ascii.eqb d c) && lacks c str'
  end.

(** The text starts with a character that is neither a separator nor a
    brace. *)
Definition starts_plain (str : string) : bool :=
  match str with
  | EmptyString => false
  | String c _ => negb (is_separator c) && negb (is_brace c)
  end.

(** The longest prefix of plain characters, and the text behind it. *)
Fixpoint word_of (str : string) : string :=
  match str with
  | EmptyString => EmptyString
  | String c str' =>
    if negb (is_separator c) && negb (is_brace c) then String c (word_of str')
    else EmptyString
  end.

Fixpoint after_word (str : string) : string :=
  match str with
  | EmptyString => EmptyString
  | String c str' =>
    if negb (is_separator c) && negb (is_brace c) then after_word str' else str
  end.

(** The rules that say what a tokenizer [f] gives for the empty text, for a
    text that starts with a separator, with a brace, and with a run of plain
    characters that ends where the text ends or a separator or brace
    stands. *)
Definition tokenizer_rules (f : string -> list string) : Prop :=
  f EmptyString = [] /\
  (forall c str, is_separator c = true -> f (String c str) = f str) /\
  (forall c str, is_brace c = true ->
                 f (String c str) = String c EmptyString :: f str) /\
  (forall w str, w <> EmptyString -> plain w = true -> starts_plain str = false ->
                 f (w ++ str)%string = w :: f str).


(* ===================================================================== *)
(** * Graph vocabulary                                                     *)
(* ===================================================================== *)

(** No layer has an id above the id counter, as in every network built from
    [Impl_new] by [addLayer] and [connect]. *)
Definition ids_bounded (n : Impl) : Prop :=
  forall id ld, IntMap.find id (layers n) = Some ld -> id <= lastLayerId n.

(** Two small networks: a new one with a layer "conv" added, and the same
    with output 0 of the input layer connected to input 0 of "conv". *)
Definition twoLayers : Impl :=
  mkImpl [(0, mkLayerData (Some 0) "_input" "__NetInputLayer__" emptyParams
                 [] [] [] (Some DataLayer) [] [] [] None);
          (2, LayerData_new 2 "conv" "Convolution" emptyParams)]
         [("_input", 0); ("conv", 2)] 2 false [] 0.

Definition linked : Impl :=
  mkImpl [(0, mkLayerData (Some 0) "_input" "__NetInputLayer__" emptyParams
                 [] [] [0] (Some DataLayer) [] [] [] None);
          (2, set_inputBlobsId [mkPin 0 0]
                (LayerData_new 2 "conv" "Convolution" emptyParams))]
         [("_input", 0); ("conv", 2)] 2 false [] 0.



(* ===================================================================== *)
(** * Importer vocabulary                                                  *)
(* ===================================================================== *)

(** A Sequential container with the given parameters and children. *)
Definition sequentialOf (p : LayerParams) (ms : list Module) : Module :=
  mkModule "Sequential" "" p ms.

(** An added module that the unpooling search accepts for [indicesBlobId]. *)
Definition pooling_for (indicesBlobId : Z) (e : Z * Module) : Prop :=
  apiType (snd e) = "Pooling" /\
  Dict_get_int "indices_blob_id" (dict (module_params (snd e))) = Ok indicesBlobId.

(** An added Pooling module whose [indices_blob_id] is not an integer. *)
Definition malformed_pooling (e : Z * Module) : Prop :=
  apiType (snd e) = "Pooling" /\
  exists s, findS "indices_blob_id" (dict (module_params (snd e))) =
            Some (DString s).

(** A ReLU layer and a Pooling layer with [indices_blob_id] 7, as added
    modules with the ids 2 and 3. *)
Definition reluAndPooling : AddedModules :=
  [(2, mkModule "nn.ReLU" "ReLU" emptyParams []);
   (3, mkModule "nn.SpatialMaxPooling" "Pooling"
         (params_set "indices_blob_id" (DInt 7) emptyParams) [])].

(* ===================================================================== *)
(** * Varint decoding                                                      *)
(* ===================================================================== *)







Ltac eq_fields :=
  repeat match goal with
  | |- Ok _ = Ok _ => apply f_equal
  | |- mkVarint _ _ _ _ _ = mkVarint _ _ _ _ _ => f_equal
  | |- mkStream _ _ _ _ = mkStream _ _ _ _ => f_equal
  | |- (_, _) = (_, _) => f_equal
  end; try lia; try reflexivity; try (rewrite ?Z.lor_assoc; reflexivity).

Lemma readBinary_cons p b tl :
  readBinary (mkStream p (b :: tl) false false) 1 =
  Ok ([b], mkStream (p + 1) tl false false).
Proof.
  unfold readBinary, IStream.read, len, good. cbn [negb andb eofbit failbit rest pos].
  change (1 <? 0) with false. cbv iota.
  destruct (Z.leb_spec 1 (Z.of_nat (List.length (b :: tl)))) as [_|H].
  - reflexivity.
  - cbn [List.length] in H. lia.
Qed.


Lemma readVarint_loop_stop k i r b s :
  readVarint_loop k (mkVarint i r b false s) = Ok (mkVarint i r b false s).
Proof. destruct k; reflexivity. Qed.

Lemma good_stream s :
  good s = true -> s = mkStream (pos s) (rest s) false false.
Proof.
  destruct s as [p r e f]. unfold good. simpl.
  destruct e, f; simpl; intros H; try discriminate. reflexivity.
Qed.

Lemma loop_last k i res last s : continues last = false ->
  readVarint_loop (S k) (mkVarint i res last true s) =
  Ok (mkVarint (i + 1) (Z.lor res (Z.shiftl (Z.land (byteZ last) 127) (i * 7)))
        last false s).
Proof.
  intros Hl. unfold continues in Hl.
  cbn [readVarint_loop vs_read_next_byte vs_byte vs_res vs_bytesRead vs_stream].
  rewrite Hl. apply readVarint_loop_stop.
Qed.

Lemma loop_decode tl last : continues last = false ->
  forall body cur i res p k,
  continues cur = true -> forallb continues body = true ->
  (List.length body + 2 <= k)%nat ->
  readVarint_loop k
    (mkVarint i res cur true (mkStream p (body ++ last :: tl) false false)) =
  Ok (mkVarint (i + Z.of_nat (List.length body) + 2)
        (Z.lor res (varint_bits i (cur :: body ++ [last]))) last false
        (mkStream (p + Z.of_nat (List.length body) + 1) tl false false)).
Proof.
  intros Hlast. induction body as [|b body IH]; intros cur i res p k Hc Hb Hk.
  - destruct k as [|[|k]]; [simpl in Hk; lia|simpl in Hk; lia|].
    cbn [readVarint_loop vs_read_next_byte vs_byte vs_res vs_bytesRead vs_stream].
    unfold continues in Hc. rewrite Hc.
    cbn [app]. rewrite readBinary_cons. cbn [bind].
    cbn [readVarint_loop vs_read_next_byte vs_byte vs_res vs_bytesRead vs_stream].
    unfold continues in Hlast. rewrite Hlast.
    rewrite readVarint_loop_stop. cbn [List.length varint_bits app].
    rewrite Z.lor_0_r, Z.lor_assoc. eq_fields.
  - destruct k as [|k]; [simpl in Hk; lia|].
    cbn [readVarint_loop vs_read_next_byte vs_byte vs_res vs_bytesRead vs_stream].
    pose proof Hc as Hc'. unfold continues in Hc'. rewrite Hc'.
    cbn [app]. rewrite readBinary_cons. cbn [bind].
    cbn [forallb] in Hb. apply andb_true_iff in Hb as [Hb1 Hb2].
    rewrite IH; try assumption; try (cbn [List.length] in Hk; lia).
    cbn [List.length varint_bits app]. rewrite Z.lor_assoc.
    eq_fields.
Qed.

Lemma loop_full nxt tl :
  forall body cur i res p k,
  continues cur = true -> forallb continues body = true ->
  (List.length body + 1 = k)%nat ->
  readVarint_loop k
    (mkVarint i res cur true (mkStream p (body ++ nxt :: tl) false false)) =
  Ok (mkVarint (i + Z.of_nat k) (Z.lor res (varint_bits i (cur :: body))) nxt true
        (mkStream (p + Z.of_nat k) tl false false)).
Proof.
  induction body as [|b body IH]; intros cur i res p k Hc Hb Hk.
  - subst k.
    cbn [readVarint_loop vs_read_next_byte vs_byte vs_res vs_bytesRead vs_stream
         List.length Nat.add].
    unfold continues in Hc. rewrite Hc.
    cbn [app]. rewrite readBinary_cons. cbn [bind varint_bits].
    rewrite Z.lor_0_r. reflexivity.
  - destruct k as [|k]; [simpl in Hk; lia|].
    cbn [readVarint_loop vs_read_next_byte vs_byte vs_res vs_bytesRead vs_stream].
    pose proof Hc as Hc'. unfold continues in Hc'. rewrite Hc'.
    cbn [app]. rewrite readBinary_cons. cbn [bind].
    cbn [forallb] in Hb. apply andb_true_iff in Hb as [Hb1 Hb2].
    rewrite (IH b (i + 1) _ (p + 1) k); try assumption; try (cbn [List.length] in Hk; lia).
    cbn [varint_bits]. rewrite Z.lor_assoc.
    eq_fields.
Qed.


Lemma assert_width n : 0 <= n <= 8 ->
  CV_Assert ((0 <=? n) && (n <=? 8)) = Ok tt.
Proof.
  intros [H1 H2]. apply Z.leb_le in H1, H2. rewrite H1, H2. reflexivity.
Qed.

Lemma readVarint_wellformed s n body last tl :
  good s = true -> 0 <= n <= 8 ->
  rest s = (body ++ last :: tl)%list ->
  forallb continues body = true -> continues last = false ->
  (List.length body <= 8)%nat ->
  readVarint s n =
  Ok (to_unsigned (8 * n) (varint_bits 0 (body ++ [last])),
      Z.of_nat (List.length body) + 1,
      mkStream (pos s + Z.of_nat (List.length body) + 1) tl false false).
Proof.
  intros Hg Hn Hr Hb Hl Hlen.
  destruct s as [p r e f]. unfold good in Hg. cbn in Hg, Hr |- *.
  destruct e, f; try discriminate. subst r. unfold readVarint.
  rewrite assert_width by assumption. cbn [bind].
  destruct body as [|cur body].
  - cbn [app]. rewrite readBinary_cons. cbn [bind].
    rewrite (loop_last 8 0 0 last _ Hl).
    cbn [bind vs_read_next_byte vs_byte vs_res vs_bytesRead vs_stream
         varint_bits List.length].
    rewrite Z.lor_0_r. eq_fields.
  - cbn [app]. rewrite readBinary_cons. cbn [bind].
    cbn [forallb] in Hb. apply andb_true_iff in Hb as [Hb1 Hb2].
    rewrite (loop_decode tl last Hl body cur 0 0 _ 9 Hb1 Hb2)
      by (cbn [List.length] in Hlen; lia).
    cbn [bind vs_read_next_byte vs_byte vs_res vs_bytesRead vs_stream List.length].
    rewrite Z.lor_0_l. cbn [app]. eq_fields.
Qed.

Lemma readVarint_ten_bytes s n body last tl :
  good s = true -> 0 <= n <= 8 ->
  rest s = (body ++ last :: tl)%list ->
  forallb continues body = true -> continues last = false ->
  List.length body = 9%nat ->
  readVarint s n =
  Ok (to_unsigned (8 * n) (varint_bits 0 body), 10,
      mkStream (pos s + 10) tl false false).
Proof.
  intros Hg Hn Hr Hb Hl Hlen.
  destruct s as [p r e f]. unfold good in Hg. cbn in Hg, Hr |- *.
  destruct e, f; try discriminate. subst r. unfold readVarint.
  rewrite assert_width by assumption. cbn [bind].
  destruct body as [|cur body]; [discriminate|].
  cbn [app]. rewrite readBinary_cons. cbn [bind].
  cbn [forallb] in Hb. apply andb_true_iff in Hb as [Hb1 Hb2].
  rewrite (loop_full last tl body cur 0 0 _ 9 Hb1 Hb2)
    by (cbn [List.length] in Hlen; lia).
  cbn [bind vs_read_next_byte vs_byte vs_res vs_bytesRead vs_stream].
  unfold continues in Hl. apply negb_false_iff in Hl. rewrite Hl.
  cbn [CV_Assert bind]. rewrite Z.lor_0_l. eq_fields.
Qed.







(* ===================================================================== *)
(** * Scalar and packed fields                                             *)
(* ===================================================================== *)

Lemma read_block p payload tl :
  IStream.read (mkStream p (payload ++ tl) false false)
               (Z.of_nat (List.length payload)) =
  (payload,
   mkStream (p + Z.of_nat (List.length payload)) tl false false).
Proof.
  unfold IStream.read, len, good. cbn [negb andb eofbit failbit rest pos].
  destruct (Z.ltb_spec (Z.of_nat (List.length payload)) 0) as [H|_]; [lia|].
  destruct (Z.leb_spec (Z.of_nat (List.length payload))
                       (Z.of_nat (List.length (payload ++ tl)))) as [_|H].
  - rewrite Nat2Z.id, firstn_app, skipn_app, Nat.sub_diag, firstn_all, skipn_all.
    cbn [firstn skipn]. rewrite app_nil_r. reflexivity.
  - rewrite length_app in H. lia.
Qed.

Lemma readBinary_block p payload tl :
  readBinary (mkStream p (payload ++ tl) false false)
             (Z.of_nat (List.length payload)) =
  Ok (payload, mkStream (p + Z.of_nat (List.length payload)) tl false false).
Proof.
  unfold readBinary. rewrite read_block. rewrite Z.eqb_refl. reflexivity.
Qed.

(** How a scalar is read, by type.  One of the four integer types is read
    by [readVarint] with the width of the type; float, double and bool are
    read as a block of [sizeof T] raw bytes: four, eight and one. *)
Lemma ProtoValue_read_by_type (T : PrimType) (value : Z) (s : istream) :
  good s = true ->
  (is_varint_type T = true ->
   ProtoValue_read T value s =
   (let* (raw, _, s1) := readVarint s (sizeof T) in
    Ok (value_of_raw T raw, s1))) /\
  (is_varint_type T = false ->
   forall payload tl,
     rest s = (payload ++ tl)%list ->
     Z.of_nat (List.length payload) = sizeof T ->
     ProtoValue_read T value s =
     Ok (value_of_raw T (le_value payload),
         mkStream (pos s + sizeof T) tl false false)).
Proof.
  intros Hg.
  destruct s as [p r e f]. unfold good in Hg. cbn in Hg.
  destruct e, f; try discriminate. cbn [pos rest].
  split; [intros HT; unfold ProtoValue_read; rewrite HT; reflexivity|].
  intros HT payload tl Hr Hlen. subst r. unfold ProtoValue_read.
  rewrite HT, <- Hlen, readBinary_block. cbn [bind].
  destruct payload as [|b payload]; [destruct T; discriminate|]. reflexivity.
Qed.

Lemma bool_byte_as_varint b : continues b = false ->
  value_of_raw TBool (le_value [b]) =
  value_of_raw TBool (to_unsigned (8 * sizeof TBool) (varint_bits 0 [b])).
Proof.
  intros H. destruct b; try (vm_compute in H; discriminate H); reflexivity.
Qed.

(** C3, evaluated on the code.  A bool field is not read as a varint: it
    takes the one byte that stands first, whatever its top bit.  Where that
    byte has its top bit clear this is what the varint read gives.  On the
    message bytes 08 81 00, the key of field 1 and the two byte varint of
    the value 1, the bool reader takes 0x81 and leaves 0x00, which the field
    loop then reads as a key with tag 0: a parse error.  The same bytes are
    read to the end when field 1 is an int32, and when the message has no
    field 1 and the varint is skipped. *)
Theorem bool_field_is_read_as_one_byte :
  (forall value p b tl,
     ProtoValue_read TBool value (mkStream p (b :: tl) false false) =
     Ok (byteZ b mod 2 ^ 8, mkStream (p + 1) tl false false)) /\
  (forall value p b tl,
     continues b = false ->
     ProtoValue_read TBool value (mkStream p (b :: tl) false false) =
     (let* (raw, _, s1) :=
        readVarint (mkStream p (b :: tl) false false) (sizeof TBool) in
      Ok (value_of_raw TBool raw, s1))) /\
  readVarint (open [x81; x00]) (sizeof TBool) =
    Ok (1, 2, mkStream 2 [] false false) /\
  ProtobufMessage_read 5 boolMessage (open [x08; x81; x00]) =
    (Raise StsParseError,
     ProtobufMessage [("flag", [ProtoValue TBool 129])] []
       [(1, ProtoValue TBool 0)] [("flag", ProtoValue TBool 0)] [(1, "flag")]) /\
  ProtobufMessage_read 5 int32Message (open [x08; x81; x00]) =
    (Ok (mkStream 3 [] true true),
     ProtobufMessage [("flag", [ProtoValue TInt32 1])] []
       [(1, ProtoValue TInt32 0)] [("flag", ProtoValue TInt32 0)] [(1, "flag")]) /\
  ProtobufMessage_read 5 otherMessage (open [x08; x81; x00]) =
    (Ok (mkStream 3 [] true true),
     ProtobufMessage [] [] [(2, ProtoValue TInt32 0)]
       [("other", ProtoValue TInt32 0)] [(2, "other")]).
Proof.
  split.
  { intros value p b tl. unfold ProtoValue_read. cbn [is_varint_type sizeof].
    rewrite readBinary_cons. cbn [bind value_of_raw le_value sizeof].
    unfold to_unsigned. repeat f_equal. lia. }
  split.
  { intros value p b tl Hb. unfold ProtoValue_read at 1.
    cbn [is_varint_type]. change (sizeof TBool) with 1 at 1.
    rewrite readBinary_cons. cbn [bind].
    rewrite (readVarint_wellformed (mkStream p (b :: tl) false false)
               (sizeof TBool) [] b tl);
      [|reflexivity|cbn [sizeof]; lia|reflexivity|reflexivity|exact Hb
       |cbn [List.length]; lia].
    cbn [bind List.length Z.of_nat pos app].
    rewrite (bool_byte_as_varint b Hb). eq_fields. }
  split; [reflexivity|]. split; [vm_compute; reflexivity|].
  split; vm_compute; reflexivity.
Qed.

(** C5, evaluated on the code.  A packed field whose payload length is 0:
    for the integer element types the read succeeds with no element; for
    float and double the read of zero bytes returns 0 and the assertion on
    that return value fails; for bool the first element of the empty
    bit-packed vector is read through a null pointer before anything is
    read from the stream. *)
Theorem ProtoPack_read_empty_payload (fuel : nat) (T : PrimType) (s : istream)
    (tl : list byte) :
  good s = true -> 0 <= pos s < INT_MAX -> rest s = x00 :: tl ->
  (T = TFloat \/ T = TDouble -> ProtoPack_read fuel T s = Raise StsAssert) /\
  (T = TBool -> ProtoPack_read fuel T s = Undefined) /\
  (is_varint_type T = true ->
   ProtoPack_read (S fuel) T s = Ok ([], mkStream (pos s + 1) tl false false)).
Proof.
  intros Hg Hp Hr.
  destruct s as [p r e f]. unfold good in Hg. cbn in Hg, Hp, Hr.
  destruct e, f; try discriminate. subst r. cbn [pos rest].
  assert (Hlen : ProtoValue_read TInt32 default_value
                   (mkStream p (x00 :: tl) false false) =
                 Ok (0, mkStream (p + 1) tl false false)).
  { unfold ProtoValue_read. cbn [is_varint_type sizeof].
    rewrite (readVarint_wellformed _ 4 [] x00 tl); try reflexivity; try lia.
    - cbn [bind List.length pos Z.of_nat app]. rewrite Z.add_0_r. reflexivity.
    - cbn [List.length]. lia. }
  pose proof (readBinary_block (p + 1) [] tl) as Hz.
  cbn [List.length app Z.of_nat] in Hz.
  split; [|split]; intros HT; unfold ProtoPack_read; rewrite Hlen; cbn [bind].
  - destruct HT as [-> | ->];
      cbn [is_varint_type negb sizeof]; change (to_unsigned 64 0) with 0;
      cbn [Z.modulo Z.div_eucl Z.eqb CV_Assert bind Z.ltb Z.compare fst snd];
      rewrite Hz; reflexivity.
  - subst T. reflexivity.
  - rewrite HT. cbn [negb]. change (Z.quot 0 4 <? 0) with false. cbv iota.
    unfold tellg at 1. cbn [good eofbit failbit negb andb pos].
    assert (Hc : int_cast (p + 1) = p + 1).
    { unfold int_cast, to_signed, INT_MAX in *.
      rewrite Z.mod_small by lia.
      destruct (Z.ltb_spec (p + 1) (2 ^ (32 - 1))); lia. }
    rewrite Hc. unfold int_add.
    destruct (Z.leb_spec INT_MIN (p + 1 + 0)); [|unfold INT_MIN in *; lia].
    destruct (Z.leb_spec (p + 1 + 0) INT_MAX); [|lia].
    cbn [andb bind ProtoPack_loop].
    unfold tellg. cbn [good eofbit failbit negb andb pos].
    destruct (Z.ltb_spec (p + 1) (p + 1 + 0)); [lia|].
    cbn [bind good eofbit failbit negb andb pos]. rewrite Hc.
    destruct (Z.eqb_spec (p + 1) (p + 1 + 0)); [|lia]. reflexivity.
Qed.

Lemma ProtoPack_read_empty_payload_witness :
  ProtoPack_read 1 TFloat (open [x00]) = Raise StsAssert /\
  ProtoPack_read 1 TDouble (open [x00]) = Raise StsAssert /\
  ProtoPack_read 1 TBool (open [x00]) = Undefined /\
  ProtoPack_read 1 TInt32 (open [x00]) = Ok ([], mkStream 1 [] false false).
Proof.
  assert (Hp : 0 <= pos (open [x00]) < INT_MAX) by (simpl; unfold INT_MAX; lia).
  split; [|split; [|split]].
  - exact (proj1 (ProtoPack_read_empty_payload 1 TFloat (open [x00]) []
                    eq_refl Hp eq_refl) (or_introl eq_refl)).
  - exact (proj1 (ProtoPack_read_empty_payload 1 TDouble (open [x00]) []
                    eq_refl Hp eq_refl) (or_intror eq_refl)).
  - exact (proj1 (proj2 (ProtoPack_read_empty_payload 1 TBool (open [x00]) []
                    eq_refl Hp eq_refl)) eq_refl).
  - exact (proj2 (proj2 (ProtoPack_read_empty_payload 0 TInt32 (open [x00]) []
                    eq_refl Hp eq_refl)) eq_refl).
Defined.

(* ===================================================================== *)
(** * The layer graph: addLayer                                            *)
(* ===================================================================== *)











(* ===================================================================== *)
(** * The container tree importer                                          *)
(* ===================================================================== *)

(** Evaluates [fill] on a tree whose leaf types are variables: unfolds the
    graph operations, uses the facts [Hs] about the leaf names where the
    evaluation meets them, and computes the conversions of literals. *)
Ltac run_fill Hs :=
  repeat (progress (
    cbn;
    unfold imp_addLayer, addLayer, imp_connect, connect, getLayerId,
           getLayerData, addLayerInput, int_add, INT_MIN, INT_MAX, insertName;
    cbn; rewrite ?Hs;
    repeat match goal with
           | |- context [Pos.to_nat ?p] =>
             let v := eval vm_compute in (Pos.to_nat p) in
             change (Pos.to_nat p) with v
           end)).

(** C8.  Importing Sequential [ ConcatTable [ A, B ], CAddTable ] into a new
    network, for any two leaf modules A and B.  The ConcatTable yields a
    Split layer (id 2) fed by the network input, and the layers of A (id 3)
    and B (id 4) reading outputs 0 and 1 of the Split.  When the CAddTable
    is reached, the layers without a required output are exactly those of A
    and B, and the CAddTable becomes an Eltwise layer (id 5) with operation
    "sum" whose inputs are output 0 of A and output 0 of B, in this order. *)
Theorem CAddTable_sums_the_branches (A B : Module) :
  is_leaf A -> is_leaf B ->
  exists am1 imp1 am imp split a b sum,
    fill (concatTableOf A B) [] 0 0 (mkImporter Impl_new 0) = Ok (4, am1, imp1) /\
    getUnconnectedOutLayers (net imp1) = [3; 4] /\
    fill (mkModule "CAddTable" "" emptyParams []) am1 4 0 imp1 = Ok (5, am, imp) /\
    populateNet (sumOfBranches A B) Impl_new = Ok (5, am, imp) /\
    IntMap.keys (layers (net imp)) = [0; 2; 3; 4; 5] /\
    IntMap.find 2 (layers (net imp)) = Some split /\
    ld_type split = "Split" /\ inputBlobsId split = [mkPin 0 0] /\
    IntMap.find 3 (layers (net imp)) = Some a /\
    ld_type a = apiType A /\ inputBlobsId a = [mkPin 2 0] /\
    IntMap.find 4 (layers (net imp)) = Some b /\
    ld_type b = apiType B /\ inputBlobsId b = [mkPin 2 1] /\
    IntMap.find 5 (layers (net imp)) = Some sum /\
    ld_type sum = "Eltwise" /\
    dict (ld_params sum) = [("operation", DString "sum")] /\
    inputBlobsId sum = [mkPin 3 0; mkPin 4 0].
Proof.
  intros [HA1 HA2] [HB1 HB2].
  destruct A as [thA tA pA msA], B as [thB tB pB msB].
  cbn [apiType] in *.
  destruct tA as [|cA tA]; [congruence|]. destruct tB as [|cB tB]; [congruence|].
  cbn [contains_dot] in HA2, HB2.
  unfold populateNet, sumOfBranches, concatTableOf.
  do 8 eexists.
  split; [run_fill HA2; run_fill HB2; reflexivity|].
  split; [reflexivity|].
  split; [run_fill HA2; reflexivity|].
  split; [run_fill HA2; run_fill HB2; reflexivity|].
  cbn. repeat (split; [reflexivity|]). reflexivity.
Qed.

Lemma CAddTable_sums_the_branches_witness :
  exists am imp sum,
    populateNet (sumOfBranches (mkModule "SpatialConvolution" "Convolution" emptyParams [])
                               (mkModule "Identity" "Identity" emptyParams []))
                Impl_new = Ok (5, am, imp) /\
    IntMap.find 5 (layers (net imp)) = Some sum /\
    inputBlobsId sum = [mkPin 3 0; mkPin 4 0].
Proof.
  assert (HA : is_leaf (mkModule "SpatialConvolution" "Convolution" emptyParams []))
    by (split; [discriminate|reflexivity]).
  assert (HB : is_leaf (mkModule "Identity" "Identity" emptyParams []))
    by (split; [discriminate|reflexivity]).
  destruct (CAddTable_sums_the_branches _ _ HA HB)
    as (am1 & imp1 & am & imp & split & a & b & sum & H).
  exists am, imp, sum.
  destruct H as (_ & _ & _ & H1 & _ & _ & _ & _ & _ & _ & _ & _ & _ & _ & H2 & _ & _ & H3).
  split; [exact H1|split; [exact H2|exact H3]].
Defined.

Lemma Dict_get_int_has key d v :
  Dict_get_int key d = Ok v -> Dict_has key d = true.
Proof.
  unfold Dict_get_int, Dict_has. destruct (findS key d); [reflexivity|discriminate].
Qed.

(** C9, evaluated on the code.  A SpatialMaxUnpooling node whose
    [indices_blob_id] no added Pooling module carries: the search leaves
    [poolingLayer.second] null, and the first statement after the search
    reads the parameters of the pooling module through it.  The assertion
    that a pooling layer was found stands after these reads. *)
Theorem unpooling_without_pooling (params : LayerParams) (children : list Module)
    (addedModules : AddedModules) (prevLayerId prevOutNum : Z)
    (imp : TorchImporter) (indicesBlobId : Z) :
  Dict_get_int "indices_blob_id" (dict params) = Ok indicesBlobId ->
  findPooling addedModules indicesBlobId = Ok None ->
  fill (mkModule "SpatialMaxUnpooling" "" params children) addedModules
       prevLayerId prevOutNum imp = Undefined.
Proof.
  intros Hget Hfind. cbn [fill String.eqb Ascii.eqb Bool.eqb negb].
  rewrite (Dict_get_int_has _ _ _ Hget), Hget. cbn [CV_Assert bind].
  rewrite Hfind. reflexivity.
Qed.

Lemma unpooling_without_pooling_witness :
  populateNet
    (mkModule "Sequential" "" emptyParams
       [mkModule "ReLU" "ReLU" emptyParams [];
        mkModule "SpatialMaxUnpooling" ""
          (params_set "indices_blob_id" (DInt 7) emptyParams) []])
    Impl_new = Undefined.
Proof.
  change (fillSequential fill
            [mkModule "ReLU" "ReLU" emptyParams [];
             mkModule "SpatialMaxUnpooling" ""
               (params_set "indices_blob_id" (DInt 7) emptyParams) []]
            [] 0 0 (mkImporter Impl_new 0) = Undefined).
  cbn [fillSequential].
  remember (fill (mkModule "ReLU" "ReLU" emptyParams []) [] 0 0
                 (mkImporter Impl_new 0)) as leaf eqn:E.
  vm_compute in E. subst leaf. cbn [bind].
  rewrite unpooling_without_pooling with (indicesBlobId := 7); reflexivity.
Defined.

(* ===================================================================== *)
(** * Further properties of the binary parser *)
(* ===================================================================== *)

Section Reparse.
Variable extract : PrimType -> string -> Z.

Lemma parse_keeps_tables fuel rf dflt byTag byName names src :
  exists rf',
    snd (parse extract fuel (ProtobufMessage rf dflt byTag byName names) src) =
    ProtobufMessage rf' dflt byTag byName names.
Proof.
  destruct src as [bytes|content]; cbn [parse].
  - unfold ProtobufMessage_read.
    destruct (messageRead (read fuel) byTag names fuel (open bytes)) as [r rf'].
    exists rf'. reflexivity.
  - unfold ProtobufMessage_readText.
    destruct (textMessageRead (readText extract fuel) byName fuel _) as [r rf'].
    exists rf'. reflexivity.
Qed.

(** X1.  Parsing into a message that already holds the fields of an
    earlier parse gives the same result, and the same message, as parsing
    into the message before that earlier parse: both readers clear the
    fields read before they start. *)
Theorem parse_forgets_previous_parse fuel1 fuel2 (m : ProtobufField) (src1 src2 : Source) :
  parse extract fuel2 (snd (parse extract fuel1 m src1)) src2 =
  parse extract fuel2 m src2.
Proof.
  destruct m as [T v|v|v p e|T vs|rf dflt byTag byName names].
  5:{ destruct (parse_keeps_tables fuel1 rf dflt byTag byName names src1) as [rf' H].
      rewrite H. destruct src2; reflexivity. }
  all: destruct src1; reflexivity.
Qed.
End Reparse.

Lemma tellg_idem s : fst (tellg (snd (tellg s))) = fst (tellg s).
Proof.
  unfold tellg. destruct (good s) eqn:E; cbn [fst snd].
  - rewrite E. reflexivity.
  - unfold good, setfail. cbn. rewrite andb_false_r. reflexivity.
Qed.

Lemma messageFooter_Ok isEmbedded msgEnd s s' :
  messageFooter isEmbedded msgEnd s = Ok s' ->
  isEmbedded = true ->
  eof s' = true \/ int_cast (fst (tellg s')) = msgEnd.
Proof.
  unfold messageFooter. intros H He. subst isEmbedded. cbn [negb] in H.
  destruct (eof s) eqn:E.
  - inversion H; subst. left. exact E.
  - destruct (tellg s) as [p s1] eqn:Et.
    destruct (Z.eqb_spec (int_cast p) msgEnd) as [Heq|Hne]; [|discriminate].
    cbn in H. inversion H; subst s'. right.
    replace s1 with (snd (tellg s)) by (rewrite Et; reflexivity).
    rewrite tellg_idem, Et. exact Heq.
Qed.

(** X2.  A message read at a non-zero stream position is an embedded one:
    its length is read first as an int32 varint, and a read that returns
    leaves the stream at end of file or exactly at the end position
    computed from that length. *)
Theorem embedded_message_ends_at_its_length fuel rf dflt byTag byName names s f s' :
  int_cast (fst (tellg s)) <> 0 ->
  read fuel (ProtobufMessage rf dflt byTag byName names) s = Ok (f, s') ->
  exists numBytes s1 msgEnd,
    ProtoValue_read TInt32 default_value (snd (tellg s)) = Ok (numBytes, s1) /\
    msgEnd = int_cast (fst (tellg s1)) + numBytes /\
    (eof s' = true \/ int_cast (fst (tellg s')) = msgEnd).
Proof.
  intros Hemb H.
  destruct fuel as [|fuel]; [discriminate|]. cbn [read] in H.
  unfold messageRead, messageHeader in H.
  destruct (tellg s) as [p0 s0] eqn:Et. cbn [fst snd] in *.
  destruct (Z.eqb_spec (int_cast p0) 0) as [|_]; [contradiction|].
  cbn [negb] in H.
  destruct (ProtoValue_read TInt32 default_value s0) as [[numBytes s1]| | |] eqn:Er;
    cbn [bind] in H; try discriminate.
  destruct (tellg s1) as [p1 s2] eqn:Et1.
  unfold int_add in H.
  destruct ((INT_MIN <=? int_cast p1 + numBytes) && (int_cast p1 + numBytes <=? INT_MAX));
    cbn [bind] in H; [|discriminate].
  destruct (messageLoop (read fuel) byTag names fuel (int_cast p1 + numBytes) [] s2)
    as [[s3| | |] rf'] eqn:El; cbn [bind] in H; try discriminate.
  destruct (messageFooter true (int_cast p1 + numBytes) s3) as [s4| | |] eqn:Ef;
    cbn [bind] in H; try discriminate.
  inversion H; subst f s'.
  exists numBytes, s1, (int_cast p1 + numBytes).
  split; [reflexivity|]. split; [rewrite Et1; reflexivity|].
  eapply messageFooter_Ok; eauto.
Qed.

Lemma embedded_message_ends_at_its_length_witness :
  exists numBytes s1 msgEnd,
    ProtoValue_read TInt32 default_value
      (snd (tellg (mkStream 1 [x02; x08; x01] false false))) = Ok (numBytes, s1) /\
    msgEnd = int_cast (fst (tellg s1)) + numBytes /\
    (eof (mkStream 4 [] false false) = true \/
     int_cast (fst (tellg (mkStream 4 [] false false))) = msgEnd).
Proof.
  assert (Hpos : int_cast (fst (tellg (mkStream 1 [x02; x08; x01] false false))) <> 0)
    by (vm_compute; discriminate).
  apply (embedded_message_ends_at_its_length 5%nat [("x", [])] []
           [(1, ProtoValue TInt32 0)] [("x", ProtoValue TInt32 0)] [(1, "x")]
           (mkStream 1 [x02; x08; x01] false false)
           (ProtobufMessage [("x", [ProtoValue TInt32 1])] []
              [(1, ProtoValue TInt32 0)] [("x", ProtoValue TInt32 0)] [(1, "x")])
           (mkStream 4 [] false false) Hpos).
  vm_compute. reflexivity.
Defined.

(** X3.  When the fields of an embedded message have been read and the
    stream is neither at end of file nor at the end position announced by
    the length prefix, the read raises an assertion failure; the fields read
    so far stay in the message. *)
Theorem embedded_message_length_mismatch readField byTag names fuel s msgEnd s1 s2 rf :
  messageHeader s = Ok (true, msgEnd, s1) ->
  messageLoop readField byTag names fuel msgEnd [] s1 = (Ok s2, rf) ->
  eof s2 = false -> int_cast (fst (tellg s2)) <> msgEnd ->
  messageRead readField byTag names fuel s = (Raise StsAssert, rf).
Proof.
  intros Hh Hl He Hne.
  unfold messageRead. rewrite Hh, Hl. unfold messageFooter.
  cbn [negb]. rewrite He.
  destruct (tellg s2) as [p s3] eqn:Et. cbn [fst] in Hne.
  destruct (Z.eqb_spec (int_cast p) msgEnd); [contradiction|]. reflexivity.
Qed.

Lemma embedded_message_length_mismatch_witness :
  messageRead (read 5%nat) [(1, ProtoValue TInt32 0)] [(1, "x")] 5%nat
    (mkStream 1 [x01; x08; x01; x08] false false) =
  (Raise StsAssert, [("x", [ProtoValue TInt32 1])]).
Proof.
  assert (Hne : int_cast (fst (tellg (mkStream 4 [x08] false false))) <> 3)
    by (vm_compute; discriminate).
  apply (embedded_message_length_mismatch (read 5%nat)
           [(1, ProtoValue TInt32 0)] [(1, "x")] 5%nat
           (mkStream 1 [x01; x08; x01; x08] false false) 3
           (mkStream 2 [x08; x01; x08] false false)
           (mkStream 4 [x08] false false) [("x", [ProtoValue TInt32 1])]
           eq_refl eq_refl eq_refl Hne).
Defined.

Lemma ignore_block p payload tl :
  ignore (mkStream p (payload ++ tl) false false) (Z.of_nat (List.length payload)) =
  mkStream (p + Z.of_nat (List.length payload)) tl false false.
Proof.
  unfold ignore, len, good. cbn [negb andb eofbit failbit rest pos].
  destruct (Z.leb_spec (Z.of_nat (List.length payload)) 0) as [H0|H0].
  - destruct payload; [|cbn [List.length] in H0; lia].
    cbn [app List.length Z.of_nat]. rewrite Z.add_0_r. reflexivity.
  - destruct (Z.leb_spec (Z.of_nat (List.length payload))
                         (Z.of_nat (List.length (payload ++ tl)))) as [_|H].
    + rewrite Nat2Z.id, skipn_app, Nat.sub_diag, skipn_all. reflexivity.
    + rewrite length_app in H. lia.
Qed.

Lemma readVarint_app p n body last tl :
  0 <= n <= 8 ->
  forallb continues body = true -> continues last = false ->
  (List.length body <= 8)%nat ->
  readVarint (mkStream p ((body ++ [last]) ++ tl) false false) n =
  Ok (to_unsigned (8 * n) (varint_bits 0 (body ++ [last])),
      Z.of_nat (List.length (body ++ [last])),
      mkStream (p + Z.of_nat (List.length (body ++ [last]))) tl false false).
Proof.
  intros Hn Hb Hl Hlen.
  rewrite (readVarint_wellformed _ n body last tl); auto.
  - rewrite length_app. cbn [List.length pos]. rewrite Nat2Z.inj_add.
    cbn [Z.of_nat]. eq_fields.
  - cbn [rest]. rewrite <- app_assoc. reflexivity.
Qed.

Lemma to_signed_small w x : 0 < w -> 0 <= x < 2 ^ (w - 1) ->
  to_signed w (to_unsigned w x) = x.
Proof.
  intros Hw Hx. unfold to_signed, to_unsigned.
  assert (2 ^ w = 2 * 2 ^ (w - 1)).
  { replace w with (Z.succ (w - 1)) at 1 by lia. rewrite Z.pow_succ_r; lia. }
  rewrite Z.mod_mod by lia. rewrite Z.mod_small by lia.
  destruct (Z.ltb_spec x (2 ^ (w - 1))); lia.
Qed.

Lemma skipField_payload wt payload tl p :
  field_payload wt payload ->
  skipField wt (mkStream p (payload ++ tl) false false) =
  Ok (mkStream (p + Z.of_nat (List.length payload)) tl false false).
Proof.
  intros H. destruct H as [body last Hb Hl Hlen|bs Hlen|body last data Hb Hl Hlen Hv Hmax|bs Hlen];
    unfold skipField; cbn [Z.eqb Pos.eqb].
  - unfold ProtoValue_read. cbn [is_varint_type sizeof].
    destruct (Nat.eq_dec (List.length body) 9) as [H9|H9].
    + rewrite (readVarint_ten_bytes _ 8 body last tl); auto; try lia.
      * cbn [bind pos]. rewrite length_app. cbn [List.length]. rewrite H9.
        eq_fields.
      * cbn [rest]. rewrite <- app_assoc. reflexivity.
    + rewrite readVarint_app by (auto; lia). reflexivity.
  - rewrite <- (ignore_block p bs tl). rewrite Hlen. reflexivity.
  - unfold ProtoValue_read. cbn [is_varint_type sizeof].
    rewrite <- app_assoc. rewrite readVarint_app by (auto; lia). cbn [bind].
    change (value_of_raw TInt32 ?x) with (to_signed 32 x). change (8 * 4) with 32.
    rewrite Hv, to_signed_small by (unfold INT_MAX in Hmax; lia).
    rewrite ignore_block. rewrite !length_app, !Nat2Z.inj_add. eq_fields.
  - rewrite <- (ignore_block p bs tl). rewrite Hlen. reflexivity.
Qed.

(** X4.  Skipping a field of wire type 0 (a varint of at most ten bytes),
    1 (eight bytes), 2 (a length and that many bytes) or 5 (four bytes)
    consumes exactly the bytes of that field and leaves the stream good. *)
Theorem skipField_consumes_the_field wt payload tl p :
  field_payload wt payload ->
  skipField wt (mkStream p (payload ++ tl) false false) =
  Ok (mkStream (p + Z.of_nat (List.length payload)) tl false false).
Proof. apply skipField_payload. Qed.

Lemma skipField_consumes_the_field_witness :
  field_payload 2 (([] ++ [x02]) ++ [x41; x42]) /\
  skipField 2 (mkStream 3 ((([] ++ [x02]) ++ [x41; x42]) ++ [x07]) false false) =
  Ok (mkStream (3 + Z.of_nat (List.length (([] ++ [x02]) ++ [x41; x42])))
        [x07] false false).
Proof.
  assert (H : field_payload 2 (([] ++ [x02]) ++ [x41; x42])).
  { apply payload_delimited; try reflexivity.
    - cbn [List.length]. lia.
    - vm_compute. discriminate. }
  split; [exact H|].
  apply (skipField_consumes_the_field 2 _ [x07] 3 H).
Defined.

Lemma field_payload_wire_type wt payload :
  field_payload wt payload -> wt = 0 \/ wt = 1 \/ wt = 2 \/ wt = 5.
Proof. intros []; auto. Qed.

(** X5.  In the field loop of a message, a key whose tag is positive and
    not among the message's fields makes the loop skip the field's bytes
    and go on with the next key; nothing is added to the fields read. *)
Theorem unknown_field_is_skipped readField byTag names fuel msgEnd rf p
    kbody klast payload tl :
  forallb continues kbody = true -> continues klast = false ->
  (List.length kbody <= 8)%nat ->
  0 < Z.shiftr (key_of (kbody ++ [klast])) 3 ->
  findZ (Z.shiftr (key_of (kbody ++ [klast])) 3) byTag = None ->
  field_payload (Z.land (key_of (kbody ++ [klast])) 7) payload ->
  p < msgEnd ->
  messageLoop readField byTag names (S fuel) msgEnd rf
    (mkStream p ((kbody ++ [klast]) ++ payload ++ tl) false false) =
  messageLoop readField byTag names fuel msgEnd rf
    (mkStream (p + Z.of_nat (List.length (kbody ++ [klast]))
                 + Z.of_nat (List.length payload)) tl false false).
Proof.
  intros Hb Hl Hlen Htag Hfind Hpay Hp.
  cbn [messageLoop]. unfold tellg at 1. cbn [good eofbit failbit negb andb pos].
  destruct (Z.ltb_spec p msgEnd); [|lia].
  unfold parseKey. rewrite readVarint_app by (auto; lia). cbn [bind eof eofbit].
  change (8 * 4) with 32. fold (key_of (kbody ++ [klast])).
  destruct (Z.leb_spec (Z.shiftr (key_of (kbody ++ [klast])) 3) 0); [lia|].
  pose proof (field_payload_wire_type _ _ Hpay) as Hwt.
  replace (negb (Z.land (key_of (kbody ++ [klast])) 7 =? 0)
           && negb (Z.land (key_of (kbody ++ [klast])) 7 =? 1)
           && negb (Z.land (key_of (kbody ++ [klast])) 7 =? 2)
           && negb (Z.land (key_of (kbody ++ [klast])) 7 =? 5)) with false
    by (destruct Hwt as [->|[->|[->| ->]]]; reflexivity).
  rewrite Hfind, skipField_payload by assumption. reflexivity.
Qed.

Lemma unknown_field_is_skipped_witness :
  messageLoop (read 3%nat) [(1, ProtoValue TInt32 0)] [(1, "x")] 3%nat 10 []
    (mkStream 0 (([] ++ [x28]) ++ ([] ++ [x09]) ++ [x08; x02]) false false) =
  messageLoop (read 3%nat) [(1, ProtoValue TInt32 0)] [(1, "x")] 2%nat 10 []
    (mkStream (0 + Z.of_nat (List.length (([] : list byte) ++ [x28]))
                 + Z.of_nat (List.length (([] : list byte) ++ [x09])))
       [x08; x02] false false).
Proof.
  assert (Hpay : field_payload (Z.land (key_of ([] ++ [x28])) 7) ([] ++ [x09])).
  { change (Z.land (key_of ([] ++ [x28])) 7) with 0.
    apply payload_varint; try reflexivity. cbn [List.length]. lia. }
  apply (unknown_field_is_skipped (read 3%nat) [(1, ProtoValue TInt32 0)] [(1, "x")]
           2%nat 10 [] 0 [] x28 ([] ++ [x09]) [x08; x02]);
    try reflexivity; try exact Hpay.
  cbn [List.length]. lia.
Defined.

Lemma byteZ_byte_of_Z x : 0 <= x < 256 -> byteZ (byte_of_Z x) = x.
Proof.
  intros Hx. unfold byte_of_Z, byteZ.
  destruct (Byte.of_N (Z.to_N x)) as [b|] eqn:E.
  - apply Byte.to_of_N in E. rewrite E. lia.
  - apply Byte.of_N_None_iff in E. lia.
Qed.

Lemma byteZ_range b : 0 <= byteZ b < 256.
Proof. unfold byteZ. pose proof (Byte.to_N_bounded b). lia. Qed.

Lemma byte_data_bits b : Z.land (byteZ b) 127 = byteZ b mod 128.
Proof. destruct b; reflexivity. Qed.

Lemma byte_top_bit b : continues b = (128 <=? byteZ b).
Proof. destruct b; reflexivity. Qed.

Lemma lor_low7 a q : 0 <= a < 128 -> 0 <= q ->
  Z.lor a (Z.shiftl q 7) = a + 128 * q.
Proof.
  intros Ha Hq.
  assert (Hl : Z.land a (Z.shiftl q 7) = 0).
  { apply Z.bits_inj'. intros n Hn. rewrite Z.land_spec, Z.bits_0.
    destruct (Z.ltb_spec n 7).
    - rewrite Z.shiftl_spec_low by lia. apply andb_false_r.
    - destruct (Z.eq_dec a 0) as [->|Hne]; [rewrite Z.bits_0; reflexivity|].
      rewrite (Z.bits_above_log2 a n); [reflexivity|lia|].
      apply Z.log2_lt_pow2; [lia|].
      apply Z.lt_le_trans with (2 ^ 7); [simpl; lia|].
      apply Z.pow_le_mono_r; lia. }
  rewrite <- Z.lxor_lor by exact Hl.
  rewrite <- Z.add_nocarry_lxor by exact Hl.
  rewrite Z.shiftl_mul_pow2 by lia. change (2 ^ 7) with 128. lia.
Qed.

Lemma varint_bits_encode n : forall v i,
  0 <= v < 128 ^ Z.of_nat (S n) -> 0 <= i ->
  varint_bits i (varint_encode n v) = Z.shiftl v (i * 7).
Proof.
  induction n as [|n IH]; intros v i Hv Hi.
  - change (128 ^ Z.of_nat 1) with 128 in Hv.
    cbn [varint_encode varint_bits]. rewrite Z.lor_0_r, byte_data_bits.
    rewrite byteZ_byte_of_Z by lia. rewrite Z.mod_small by lia. reflexivity.
  - cbn [varint_encode]. destruct (Z.ltb_spec v 128) as [Hlt|Hge].
    + cbn [varint_bits]. rewrite Z.lor_0_r, byte_data_bits.
      rewrite byteZ_byte_of_Z by lia. rewrite Z.mod_small by lia. reflexivity.
    + assert (Hm : 0 <= v mod 128 < 128) by (apply Z.mod_pos_bound; lia).
      assert (Hq : 0 <= v / 128 < 128 ^ Z.of_nat (S n)).
      { split; [apply Z.div_pos; lia|].
        apply Z.div_lt_upper_bound; [lia|].
        replace (Z.of_nat (S (S n))) with (Z.succ (Z.of_nat (S n))) in Hv by lia.
        rewrite Z.pow_succ_r in Hv by lia. lia. }
      cbn [varint_bits]. rewrite byte_data_bits.
      rewrite byteZ_byte_of_Z by lia.
      replace (v mod 128 + 128) with (v mod 128 + 1 * 128) by lia.
      rewrite Z.mod_add by lia. rewrite (Z.mod_small (v mod 128)) by lia.
      rewrite IH by (auto; lia).
      replace ((i + 1) * 7) with (7 + i * 7) by lia.
      rewrite <- Z.shiftl_shiftl by lia.
      rewrite <- Z.shiftl_lor, lor_low7 by (auto; lia).
      f_equal. rewrite (Z.div_mod v 128) at 3 by lia. lia.
Qed.

Lemma varint_encode_shape n : forall v,
  0 <= v < 128 ^ Z.of_nat (S n) ->
  exists body last,
    varint_encode n v = (body ++ [last])%list /\
    forallb continues body = true /\ continues last = false /\
    (List.length body <= n)%nat.
Proof.
  induction n as [|n IH]; intros v Hv.
  - change (128 ^ Z.of_nat 1) with 128 in Hv.
    exists [], (byte_of_Z v). cbn [varint_encode app forallb List.length].
    repeat split; auto.
    rewrite byte_top_bit, byteZ_byte_of_Z by lia. apply Z.leb_gt. lia.
  - cbn [varint_encode]. destruct (Z.ltb_spec v 128) as [Hlt|Hge].
    + exists [], (byte_of_Z v). cbn [app forallb List.length].
      repeat split; auto; [|lia].
      rewrite byte_top_bit, byteZ_byte_of_Z by lia. apply Z.leb_gt. lia.
    + assert (Hm : 0 <= v mod 128 < 128) by (apply Z.mod_pos_bound; lia).
      assert (Hq : 0 <= v / 128 < 128 ^ Z.of_nat (S n)).
      { split; [apply Z.div_pos; lia|].
        apply Z.div_lt_upper_bound; [lia|].
        replace (Z.of_nat (S (S n))) with (Z.succ (Z.of_nat (S n))) in Hv by lia.
        rewrite Z.pow_succ_r in Hv by lia. lia. }
      destruct (IH _ Hq) as (body & last & E & Hb & Hl & Hlen).
      exists (byte_of_Z (v mod 128 + 128) :: body), last.
      rewrite E. cbn [app forallb List.length]. repeat split; auto; [|lia].
      rewrite Hb, byte_top_bit, byteZ_byte_of_Z by lia.
      rewrite andb_true_r. apply Z.leb_le. lia.
Qed.

Lemma readVarint_of_encoding v w p tl :
  0 <= v < 2 ^ 63 -> 0 <= w <= 8 ->
  readVarint (mkStream p (varint_encode 8 v ++ tl) false false) w =
  Ok (to_unsigned (8 * w) v,
      Z.of_nat (List.length (varint_encode 8 v)),
      mkStream (p + Z.of_nat (List.length (varint_encode 8 v))) tl false false).
Proof.
  intros Hv Hw.
  assert (Hv' : 0 <= v < 128 ^ Z.of_nat 9) by (change (128 ^ Z.of_nat 9) with (2 ^ 63); exact Hv).
  destruct (varint_encode_shape 8 v Hv') as (body & last & E & Hb & Hl & Hlen).
  pose proof (varint_bits_encode 8 v 0 Hv' (Z.le_refl 0)) as Hbits.
  rewrite Z.shiftl_0_r in Hbits. rewrite E in Hbits |- *.
  rewrite readVarint_app by assumption. rewrite Hbits. reflexivity.
Qed.

(** X6.  The standard base-128 encoding of a value below 2^63 (at most nine
    bytes) is read back as that value, cut to the requested width, and the
    stream is left just behind the encoding. *)
Theorem readVarint_reads_back_an_encoding v w p tl :
  0 <= v < 2 ^ 63 -> 0 <= w <= 8 ->
  readVarint (mkStream p (varint_encode 8 v ++ tl) false false) w =
  Ok (to_unsigned (8 * w) v,
      Z.of_nat (List.length (varint_encode 8 v)),
      mkStream (p + Z.of_nat (List.length (varint_encode 8 v))) tl false false).
Proof. apply readVarint_of_encoding. Qed.

Lemma readVarint_reads_back_an_encoding_witness :
  readVarint (mkStream 0 (varint_encode 8 300 ++ [x07]) false false) 4 =
  Ok (to_unsigned (8 * 4) 300,
      Z.of_nat (List.length (varint_encode 8 300)),
      mkStream (0 + Z.of_nat (List.length (varint_encode 8 300))) [x07] false false).
Proof. apply (readVarint_reads_back_an_encoding 300 4 0 [x07]); lia. Defined.


Lemma int32_of_encoding v p tl value :
  0 <= v <= INT_MAX ->
  ProtoValue_read TInt32 value (mkStream p (varint_encode 8 v ++ tl) false false) =
  Ok (v, mkStream (p + Z.of_nat (List.length (varint_encode 8 v))) tl false false).
Proof.
  intros Hv. unfold INT_MAX in Hv. unfold ProtoValue_read. cbn [is_varint_type sizeof].
  rewrite readVarint_of_encoding by lia. cbn [bind].
  change (value_of_raw TInt32 ?x) with (to_signed 32 x). change (8 * 4) with 32.
  rewrite to_signed_small by lia. reflexivity.
Qed.

Lemma read_all_block p data tl :
  IStream.read (mkStream p (data ++ tl) false false) (Z.of_nat (List.length data)) =
  (data, mkStream (p + Z.of_nat (List.length data)) tl false false).
Proof.
  unfold IStream.read, len, good. cbn [negb andb eofbit failbit rest pos].
  destruct (Z.ltb_spec (Z.of_nat (List.length data)) 0) as [H0|_]; [lia|].
  destruct (Z.leb_spec (Z.of_nat (List.length data))
                       (Z.of_nat (List.length (data ++ tl)))) as [_|H].
  - rewrite Nat2Z.id, firstn_app, Nat.sub_diag, firstn_all, skipn_app,
      Nat.sub_diag, skipn_all. cbn [firstn skipn app]. rewrite app_nil_r. reflexivity.
  - rewrite length_app in H. lia.
Qed.

Lemma read_short p avail n :
  Z.of_nat (List.length avail) < n ->
  IStream.read (mkStream p avail false false) n =
  (avail, mkStream (p + Z.of_nat (List.length avail)) [] true true).
Proof.
  intros H. unfold IStream.read, len, good. cbn [negb andb eofbit failbit rest pos].
  destruct (Z.ltb_spec n 0); [lia|].
  destruct (Z.leb_spec n (Z.of_nat (List.length avail))); [lia|]. reflexivity.
Qed.

(** X7.  A string field is read as an int32 length followed by that many
    bytes: on the encoding of a length and a block of that length the
    reader returns the block and leaves the stream just behind it. *)
Theorem ProtoString_read_delimited data p tl :
  Z.of_nat (List.length data) <= INT_MAX ->
  ProtoString_read
    (mkStream p (varint_encode 8 (Z.of_nat (List.length data)) ++ data ++ tl)
       false false) =
  Ok (string_of_list_byte data,
      mkStream (p + Z.of_nat (List.length
                                (varint_encode 8 (Z.of_nat (List.length data))))
                  + Z.of_nat (List.length data)) tl false false).
Proof.
  intros Hmax. unfold ProtoString_read.
  rewrite int32_of_encoding by lia. cbn [bind].
  destruct (Z.ltb_spec (Z.of_nat (List.length data)) 0); [lia|].
  destruct (Z.eqb_spec (Z.of_nat (List.length data)) 0) as [H0|H0]; cbn [negb].
  - destruct data; [|cbn [List.length] in H0; lia].
    cbn [List.length Z.of_nat app string_of_list_byte]. rewrite Z.add_0_r. reflexivity.
  - unfold readBinary. rewrite read_all_block. rewrite Z.eqb_refl. cbn [orb CV_Assert bind].
    destruct (Z.eqb_spec (Z.of_nat (List.length data)) 0); [contradiction|].
    reflexivity.
Qed.

Lemma ProtoString_read_delimited_witness :
  Z.of_nat (List.length [x68; x69]) <= INT_MAX /\
  ProtoString_read
    (mkStream 0 (varint_encode 8 (Z.of_nat (List.length [x68; x69])) ++ [x68; x69] ++ [x00])
       false false) =
  Ok (string_of_list_byte [x68; x69],
      mkStream (0 + Z.of_nat (List.length
                                (varint_encode 8 (Z.of_nat (List.length [x68; x69]))))
                  + Z.of_nat (List.length [x68; x69])) [x00] false false).
Proof.
  assert (H : Z.of_nat (List.length [x68; x69]) <= INT_MAX) by (vm_compute; discriminate).
  split; [exact H|]. apply (ProtoString_read_delimited [x68; x69] 0 [x00] H).
Defined.

(** X8.  When fewer bytes are left than the length of a string field
    announces, the read fails an assertion, whether no byte is left or only
    a part of the string. *)
Theorem ProtoString_read_truncated n avail p :
  Z.of_nat (List.length avail) < n -> n <= INT_MAX ->
  ProtoString_read (mkStream p (varint_encode 8 n ++ avail) false false) =
  Raise StsAssert.
Proof.
  intros Hlt Hmax. unfold ProtoString_read.
  rewrite int32_of_encoding by lia. cbn [bind].
  destruct (Z.ltb_spec n 0); [lia|].
  destruct (Z.eqb_spec n 0); [lia|]. cbn [negb].
  unfold readBinary. rewrite read_short by assumption.
  destruct (Z.eqb_spec (Z.of_nat (List.length avail)) n); [lia|]. cbn [orb].
  destruct (Z.eqb_spec (Z.of_nat (List.length avail)) 0) as [E|E];
    cbn [CV_Assert bind]; [|reflexivity].
  rewrite E. reflexivity.
Qed.

Lemma ProtoString_read_truncated_witness :
  ProtoString_read (mkStream 0 (varint_encode 8 3 ++ [x68; x69]) false false) =
  Raise StsAssert.
Proof.
  assert (H1 : Z.of_nat (List.length [x68; x69]) < 3) by (vm_compute; reflexivity).
  assert (H2 : 3 <= INT_MAX) by (vm_compute; discriminate).
  apply (ProtoString_read_truncated 3 [x68; x69] 0 H1 H2).
Defined.

(** X9.  A length whose int32 value is negative makes the string reader
    raise a parse error before any byte of the string is read. *)
Theorem ProtoString_read_negative_length v p tl :
  2 ^ 31 <= v < 2 ^ 32 ->
  ProtoString_read (mkStream p (varint_encode 8 v ++ tl) false false) =
  Raise StsParseError.
Proof.
  intros Hv. unfold ProtoString_read, ProtoValue_read. cbn [is_varint_type sizeof].
  rewrite readVarint_of_encoding by lia. cbn [bind].
  change (value_of_raw TInt32 ?x) with (to_signed 32 x). change (8 * 4) with 32.
  unfold to_signed, to_unsigned. rewrite Z.mod_mod by lia.
  rewrite Z.mod_small by lia. change (32 - 1) with 31.
  destruct (Z.ltb_spec v (2 ^ 31)); [lia|].
  destruct (Z.ltb_spec (v - 2 ^ 32) 0); [reflexivity|lia].
Qed.

Lemma ProtoString_read_negative_length_witness :
  ProtoString_read (mkStream 0 (varint_encode 8 4294967295 ++ [x68]) false false) =
  Raise StsParseError.
Proof. apply (ProtoString_read_negative_length 4294967295 0 [x68]); lia. Defined.

(** X10.  A float, double or bool field read where fewer bytes are left
    than its size: at the very end of the stream the read succeeds, keeps
    the value the field had and only raises the stream's end flags; with a
    part of the value left it fails an assertion. *)
Theorem fixed_width_read_short T value p avail :
  is_varint_type T = false ->
  Z.of_nat (List.length avail) < sizeof T ->
  ProtoValue_read T value (mkStream p avail false false) =
  match avail with
  | [] => Ok (value, mkStream p [] true true)
  | _ => Raise StsAssert
  end.
Proof.
  intros HT Hlt. unfold ProtoValue_read. rewrite HT.
  unfold readBinary. rewrite read_short by assumption.
  destruct (Z.eqb_spec (Z.of_nat (List.length avail)) (sizeof T)); [lia|]. cbn [orb].
  destruct avail as [|b avail].
  - cbn [List.length Z.of_nat Z.eqb CV_Assert bind]. rewrite Z.add_0_r. reflexivity.
  - destruct (Z.eqb_spec (Z.of_nat (List.length (b :: avail))) 0) as [E|E];
      [cbn [List.length] in E; lia|]. reflexivity.
Qed.

Lemma fixed_width_read_short_witness :
  ProtoValue_read TFloat 1065353216 (mkStream 7 [] false false) =
  Ok (1065353216, mkStream 7 [] true true).
Proof.
  assert (H : Z.of_nat (List.length ([] : list byte)) < sizeof TFloat) by (vm_compute; reflexivity).
  apply (fixed_width_read_short TFloat 1065353216 7 [] eq_refl H).
Defined.

Lemma to_signed_32_range x : - 2 ^ 31 <= to_signed 32 x < 2 ^ 31.
Proof.
  unfold to_signed. change (32 - 1) with 31.
  pose proof (Z.mod_pos_bound x (2 ^ 32) ltac:(lia)) as H.
  destruct (Z.ltb_spec (x mod 2 ^ 32) (2 ^ 31)); lia.
Qed.

(** X11.  A key that [parseKey] accepts has a tag between 1 and 2^28 - 1
    and one of the wire types 0, 1, 2 and 5: the key is read as an int32,
    so higher field numbers cannot be told from lower or negative ones. *)
Theorem parseKey_accepts s tag wireType s' :
  parseKey s = Ok (Some (tag, wireType), s') ->
  0 < tag < 2 ^ 28 /\
  (wireType = 0 \/ wireType = 1 \/ wireType = 2 \/ wireType = 5).
Proof.
  unfold parseKey. intros H.
  destruct (readVarint s 4) as [[[raw k] s1]| | |]; cbn [bind] in H; try discriminate.
  destruct (eof s1); [discriminate|].
  change (value_of_raw TInt32 raw) with (to_signed 32 raw) in H.
  pose proof (to_signed_32_range raw) as Hr.
  destruct (Z.leb_spec (Z.shiftr (to_signed 32 raw) 3) 0) as [|Hpos]; [discriminate|].
  destruct (Z.eqb_spec (Z.land (to_signed 32 raw) 7) 0) as [E0|E0];
  destruct (Z.eqb_spec (Z.land (to_signed 32 raw) 7) 1) as [E1|E1];
  destruct (Z.eqb_spec (Z.land (to_signed 32 raw) 7) 2) as [E2|E2];
  destruct (Z.eqb_spec (Z.land (to_signed 32 raw) 7) 5) as [E5|E5];
    cbn [negb andb] in H; try discriminate; inversion H; subst; clear H;
    (split; [split; [assumption|]|auto]);
    rewrite Z.shiftr_div_pow2 by lia;
    apply Z.div_lt_upper_bound; lia.
Qed.

Lemma parseKey_accepts_witness :
  0 < 1 < 2 ^ 28 /\ (0 = 0 \/ 0 = 1 \/ 0 = 2 \/ 0 = 5).
Proof.
  apply (parseKey_accepts (mkStream 0 [x08; x01] false false) 1 0
           (mkStream 1 [x01] false false)).
  reflexivity.
Defined.

(** X12.  A key whose tag is 0, or whose int32 value is negative (a field
    number of 2^28 or more), is a parse error. *)
Theorem parseKey_rejects_tag v p tl :
  0 <= v < 8 \/ 2 ^ 31 <= v < 2 ^ 32 ->
  parseKey (mkStream p (varint_encode 8 v ++ tl) false false) =
  Raise StsParseError.
Proof.
  intros Hv. unfold parseKey.
  rewrite readVarint_of_encoding by lia. cbn [bind eof eofbit].
  change (value_of_raw TInt32 ?x) with (to_signed 32 x). change (8 * 4) with 32.
  unfold to_signed, to_unsigned. rewrite Z.mod_mod by lia.
  rewrite Z.mod_small by lia. change (32 - 1) with 31.
  destruct Hv as [Hv|Hv].
  - destruct (Z.ltb_spec v (2 ^ 31)); [|lia].
    replace (Z.shiftr v 3) with 0; [reflexivity|].
    rewrite Z.shiftr_div_pow2 by lia. symmetry. apply Z.div_small. lia.
  - destruct (Z.ltb_spec v (2 ^ 31)); [lia|].
    destruct (Z.leb_spec (Z.shiftr (v - 2 ^ 32) 3) 0) as [|Hpos]; [reflexivity|].
    rewrite Z.shiftr_div_pow2 in Hpos by lia.
    assert ((v - 2 ^ 32) / 2 ^ 3 < 0) by (apply Z.div_lt_upper_bound; lia). lia.
Qed.

Lemma parseKey_rejects_tag_witness :
  parseKey (mkStream 0 (varint_encode 8 2147483656 ++ [x01]) false false) =
  Raise StsParseError.
Proof. apply (parseKey_rejects_tag 2147483656 0 [x01]). right. lia. Defined.

Lemma findS_assignS_same {V : Type} k (v : V) m : findS k (assignS k v m) = Some v.
Proof.
  induction m as [|[k' v'] m IH]; cbn [assignS findS].
  - rewrite String.eqb_refl. reflexivity.
  - destruct (String.eqb k' k) eqn:E; cbn [findS].
    + rewrite String.eqb_refl. reflexivity.
    + rewrite E. exact IH.
Qed.

Lemma findS_assignS_other {V : Type} k k0 (v : V) m :
  k0 <> k -> findS k0 (assignS k v m) = findS k0 m.
Proof.
  intros Hne. induction m as [|[k' v'] m IH]; cbn [assignS findS].
  - destruct (String.eqb_spec k k0); [congruence|reflexivity].
  - destruct (String.eqb_spec k' k) as [->|Hk]; cbn [findS].
    + destruct (String.eqb_spec k k0); [congruence|reflexivity].
    + destruct (String.eqb_spec k' k0); [reflexivity|exact IH].
Qed.

Lemma pushField_same name copy rf :
  findS name (pushField name copy rf) =
  Some (match findS name rf with Some fs => fs | None => [] end ++ [copy])%list.
Proof.
  unfold pushField. destruct (findS name rf); apply findS_assignS_same.
Qed.

Lemma pushField_other name name0 copy rf :
  name0 <> name -> findS name0 (pushField name copy rf) = findS name0 rf.
Proof.
  intros. unfold pushField. destruct (findS name rf); apply findS_assignS_other; auto.
Qed.

Lemma pushField_extends name copy rf name0 fs :
  findS name0 rf = Some fs ->
  exists more, findS name0 (pushField name copy rf) = Some (fs ++ more)%list.
Proof.
  intros H. destruct (string_dec name0 name) as [->|Hne].
  - rewrite pushField_same, H. eauto.
  - rewrite pushField_other, H by assumption. exists []. rewrite app_nil_r. reflexivity.
Qed.


Lemma pushField_filled name copy rf : filled rf -> filled (pushField name copy rf).
Proof.
  intros H name0 fs. destruct (string_dec name0 name) as [->|Hne].
  - rewrite pushField_same. intros E. inversion E.
    destruct (findS name rf) as [[|f0 fs0]|]; discriminate.
  - rewrite pushField_other by assumption. apply H.
Qed.

Section Loop.
Variable readField : ProtobufField -> istream -> result (ProtobufField * istream).
Variable byTag : list (Z * ProtobufField).
Variable names : list (Z * string).

Lemma messageLoop_extends fuel : forall msgEnd rf s r rf',
  messageLoop readField byTag names fuel msgEnd rf s = (r, rf') ->
  (forall name fs, findS name rf = Some fs ->
     exists more, findS name rf' = Some (fs ++ more)%list) /\
  (filled rf -> filled rf').
Proof.
  assert (Hrefl : forall rf : ReadFields,
    (forall name fs, findS name rf = Some fs ->
       exists more, findS name rf = Some (fs ++ more)%list) /\
    (filled rf -> filled rf)).
  { intros rf. split; [|auto]. intros name fs H. exists []. rewrite app_nil_r. exact H. }
  induction fuel as [|fuel IH]; intros msgEnd rf s r rf' H; cbn [messageLoop] in H.
  - inversion H; subst. apply Hrefl.
  - destruct (tellg s) as [p s1].
    destruct (p <? msgEnd); [|inversion H; subst; apply Hrefl].
    destruct (parseKey s1) as [[[[tag wt]|] s2]| | |];
      try (inversion H; subst; apply Hrefl).
    destruct (findZ tag byTag) as [proto|].
    + destruct (readField (clone proto) s2) as [[copy s3]| | |];
        try (inversion H; subst; apply Hrefl).
      apply IH in H. destruct H as [Hext Hfill]. split.
      * intros name fs Hf.
        destruct (pushField_extends
                    (match findZ tag names with Some n => n | None => EmptyString end)
                    copy rf name fs Hf) as [more1 H1].
        destruct (Hext _ _ H1) as [more2 H2].
        exists (more1 ++ more2)%list. rewrite app_assoc. exact H2.
      * intros Hf. apply Hfill. apply pushField_filled. exact Hf.
    + destruct (skipField wt s2) as [s3| | |];
        try (inversion H; subst; apply Hrefl).
      apply IH in H. exact H.
Qed.

(** X13.  The field loop of a message only appends: whatever the outcome,
    every list of fields held when the loop starts is a prefix of the list
    held under the same name when it ends. *)
Theorem messageLoop_only_appends fuel msgEnd rf s r rf' name fs :
  messageLoop readField byTag names fuel msgEnd rf s = (r, rf') ->
  findS name rf = Some fs ->
  exists more, findS name rf' = Some (fs ++ more)%list.
Proof.
  intros H Hf. exact (proj1 (messageLoop_extends _ _ _ _ _ _ H) name fs Hf).
Qed.

End Loop.

Lemma messageLoop_only_appends_witness :
  exists more,
    findS "x" [("x", [ProtoValue TInt32 1; ProtoValue TInt32 2]);
               ("y", [ProtoValue TInt32 5])] =
    Some ([ProtoValue TInt32 1] ++ more)%list.
Proof.
  apply (messageLoop_only_appends (read 3%nat)
           [(1, ProtoValue TInt32 0); (2, ProtoValue TInt32 0)] [(1, "x"); (2, "y")]
           3%nat 10 [("x", [ProtoValue TInt32 1])]
           (mkStream 0 [x08; x02; x10; x05] false false)
           (Ok (mkStream 4 [] true true))
           [("x", [ProtoValue TInt32 1; ProtoValue TInt32 2]);
            ("y", [ProtoValue TInt32 5])] "x" [ProtoValue TInt32 1]);
    reflexivity.
Defined.

Lemma read_message_filled fuel rf dflt byTag byName names s m' s' :
  read fuel (ProtobufMessage rf dflt byTag byName names) s = Ok (m', s') ->
  exists rf', m' = ProtobufMessage rf' dflt byTag byName names /\ filled rf'.
Proof.
  destruct fuel as [|fuel]; [discriminate|]. cbn [read]. unfold messageRead.
  destruct (messageHeader s) as [[[emb msgEnd] s1]| | |]; try discriminate.
  destruct (messageLoop (read fuel) byTag names fuel msgEnd [] s1) as [r rf'] eqn:El.
  intros H.
  assert (Hf : filled rf').
  { apply (proj2 (messageLoop_extends _ _ _ _ _ _ _ _ _ El)).
    intros name fs Hn. discriminate. }
  exists rf'. split; [|exact Hf].
  destruct r as [s2| | |]; cbn [bind] in H; try discriminate.
  destruct (messageFooter emb msgEnd s2); cbn [bind] in H; try discriminate.
  inversion H. reflexivity.
Qed.

(** X14.  After a binary read that returns, a name the message [has] gives
    a node with at least one field, and a name it has not gives the field
    holding the default value when the name has one, else an empty node. *)
Theorem read_then_lookup fuel rf dflt byTag byName names s m' s' name :
  read fuel (ProtobufMessage rf dflt byTag byName names) s = Ok (m', s') ->
  exists present,
    ProtobufMessage_has m' name = Ok present /\
    if present then exists f fs, ProtobufMessage_at m' name = Ok (f :: fs)
    else ProtobufMessage_at m' name =
         Ok (match findS name dflt with Some d => [d] | None => [] end).
Proof.
  intros H. destruct (read_message_filled _ _ _ _ _ _ _ _ _ H) as (rf' & -> & Hf).
  cbn [ProtobufMessage_has ProtobufMessage_at].
  destruct (findS name rf') as [fs|] eqn:E.
  - exists true. split; [reflexivity|]. destruct fs as [|f fs].
    + exfalso. exact (Hf name [] E eq_refl).
    + eauto.
  - exists false. split; [reflexivity|]. destruct (findS name dflt); reflexivity.
Qed.

Lemma read_then_lookup_witness :
  exists present,
    ProtobufMessage_has
      (ProtobufMessage [("x", [ProtoValue TInt32 1])] [("y", ProtoValue TInt32 7)]
         [(1, ProtoValue TInt32 0)] [] [(1, "x")]) "y" = Ok present /\
    if present then
      exists f fs,
        ProtobufMessage_at
          (ProtobufMessage [("x", [ProtoValue TInt32 1])] [("y", ProtoValue TInt32 7)]
             [(1, ProtoValue TInt32 0)] [] [(1, "x")]) "y" = Ok (f :: fs)
    else
      ProtobufMessage_at
        (ProtobufMessage [("x", [ProtoValue TInt32 1])] [("y", ProtoValue TInt32 7)]
           [(1, ProtoValue TInt32 0)] [] [(1, "x")]) "y" =
      Ok (match findS "y" [("y", ProtoValue TInt32 7)] with
          | Some d => [d] | None => [] end).
Proof.
  apply (read_then_lookup 3%nat [("x", []); ("y", [])] [("y", ProtoValue TInt32 7)]
           [(1, ProtoValue TInt32 0)] [] [(1, "x")]
           (mkStream 0 [x08; x01] false false) _ (mkStream 2 [] true true) "y").
  reflexivity.
Defined.

(** X15.  A field added to a message with a default value is reported as
    present and gives an empty node; the field holding the default is given
    only after a read has cleared the table of fields read, here a read of
    an empty input. *)
Theorem added_field_hides_its_default rf dflt byTag byName names field name tag fuel :
  let m := addField (ProtobufMessage rf dflt byTag byName names) field name tag true in
  ProtobufMessage_has m name = Ok true /\
  ProtobufMessage_at m name = Ok [] /\
  ProtobufMessage_read (S fuel) m (open []) =
    (Ok (mkStream 0 [] true true), clone m) /\
  ProtobufMessage_has (clone m) name = Ok false /\
  ProtobufMessage_at (clone m) name = Ok [field].
Proof.
  cbn [addField clone ProtobufMessage_has ProtobufMessage_at findS].
  rewrite !findS_assignS_same. repeat split.
Qed.

(** X16.  Removing a field read keeps the name present: after the only
    field of a name is removed the message still has the name and gives an
    empty node for it, never the default value; other names are not
    touched. *)
Theorem remove_keeps_the_name m name idx m' :
  ProtobufMessage_remove m name idx = Ok m' ->
  ProtobufMessage_has m' name = Ok true /\
  (exists fs, ProtobufMessage_at m name = Ok fs /\
              ProtobufMessage_at m' name = Ok (erase (Z.to_nat idx) fs) /\
              0 <= idx < Z.of_nat (List.length fs)) /\
  (forall other, other <> name ->
     ProtobufMessage_at m' other = ProtobufMessage_at m other).
Proof.
  destruct m as [| | | |rf dflt byTag byName names]; try discriminate.
  cbn [ProtobufMessage_remove]. destruct (findS name rf) as [fs|] eqn:E; [|discriminate].
  destruct (Z.leb_spec 0 idx) as [H0|]; [|discriminate].
  destruct (Z.ltb_spec idx (int_cast (Z.of_nat (List.length fs)))) as [H1|]; [|discriminate].
  cbn [andb CV_Assert bind]. intros H. inversion H; subst m'; clear H.
  cbn [ProtobufMessage_has ProtobufMessage_at]. rewrite findS_assignS_same, E.
  split; [reflexivity|]. split.
  - exists fs. repeat split; auto.
    unfold int_cast, to_signed in H1. change (32 - 1) with 31 in H1.
    pose proof (Z.mod_pos_bound (Z.of_nat (List.length fs)) (2 ^ 32) ltac:(lia)) as Hm.
    destruct (Z.ltb_spec (Z.of_nat (List.length fs) mod 2 ^ 32) (2 ^ 31)); [|lia].
    pose proof (Z.mod_le (Z.of_nat (List.length fs)) (2 ^ 32) ltac:(lia) ltac:(lia)). lia.
  - intros other Hne. rewrite findS_assignS_other by assumption. reflexivity.
Qed.

Lemma remove_keeps_the_name_witness :
  ProtobufMessage_has
    (ProtobufMessage [("x", [])] [("x", ProtoValue TInt32 7)] [] [] []) "x" = Ok true /\
  (exists fs,
     ProtobufMessage_at
       (ProtobufMessage [("x", [ProtoValue TInt32 1])] [("x", ProtoValue TInt32 7)] [] [] [])
       "x" = Ok fs /\
     ProtobufMessage_at
       (ProtobufMessage [("x", [])] [("x", ProtoValue TInt32 7)] [] [] []) "x" =
     Ok (erase (Z.to_nat 0) fs) /\
     0 <= 0 < Z.of_nat (List.length fs)) /\
  (forall other, other <> "x" ->
     ProtobufMessage_at
       (ProtobufMessage [("x", [])] [("x", ProtoValue TInt32 7)] [] [] []) other =
     ProtobufMessage_at
       (ProtobufMessage [("x", [ProtoValue TInt32 1])] [("x", ProtoValue TInt32 7)] [] [] [])
       other).
Proof.
  apply (remove_keeps_the_name
           (ProtobufMessage [("x", [ProtoValue TInt32 1])] [("x", ProtoValue TInt32 7)] [] [] [])
           "x" 0).
  reflexivity.
Defined.





Lemma int_cast_small x : 0 <= x <= INT_MAX -> int_cast x = x.
Proof.
  unfold INT_MAX, int_cast, to_signed. intros H. change (32 - 1) with 31.
  rewrite Z.mod_small by lia. destruct (Z.ltb_spec x (2 ^ 31)); lia.
Qed.

Lemma reserve_ok n : 0 <= n -> (Z.quot n 4 <? 0) = false.
Proof. intros H. apply Z.ltb_ge. apply Z.quot_pos; lia. Qed.

Lemma varint_encode_length_pos n v : (0 < List.length (varint_encode n v))%nat.
Proof. destruct n; cbn [varint_encode]; [|destruct (v <? 128)]; cbn [List.length]; lia. Qed.



Lemma varint_value_of_encoding T value v p tl :
  is_varint_type T = true -> 0 <= v < 2 ^ 63 ->
  ProtoValue_read T value (mkStream p (varint_encode 8 v ++ tl) false false) =
  Ok (decoded T v,
      mkStream (p + Z.of_nat (List.length (varint_encode 8 v))) tl false false).
Proof.
  intros HT Hv. unfold ProtoValue_read. rewrite HT.
  rewrite readVarint_of_encoding by (auto; destruct T; cbn; lia). reflexivity.
Qed.

Lemma ProtoPack_loop_encoded T tl (HT : is_varint_type T = true) : forall vs acc p k,
  Forall (fun v => 0 <= v < 2 ^ 63) vs ->
  ProtoPack_loop (S (List.length vs) + k) T
    (p + Z.of_nat (List.length (pack_payload vs))) acc
    (mkStream p (pack_payload vs ++ tl) false false) =
  Ok ((acc ++ map (decoded T) vs)%list,
      mkStream (p + Z.of_nat (List.length (pack_payload vs))) tl false false).
Proof.
  induction vs as [|v vs IH]; intros acc p k Hvs.
  - cbn [List.length pack_payload map List.concat app Z.of_nat Nat.add ProtoPack_loop].
    unfold tellg. cbn [good eofbit failbit negb andb pos].
    rewrite Z.add_0_r, Z.ltb_irrefl, app_nil_r. reflexivity.
  - inversion Hvs as [|v0 vs0 Hv Hvs']; subst.
    unfold pack_payload. cbn [map List.concat]. fold (pack_payload vs).
    rewrite length_app, Nat2Z.inj_add, <- app_assoc.
    pose proof (varint_encode_length_pos 8 v) as Hpos.
    change (S (List.length (v :: vs)) + k)%nat
      with (S (S (List.length vs) + k)).
    remember (S (List.length vs) + k)%nat as fuel eqn:Ef.
    cbn [ProtoPack_loop]. unfold tellg. cbn [good eofbit failbit negb andb pos].
    destruct (Z.ltb_spec p (p + (Z.of_nat (List.length (varint_encode 8 v))
                                 + Z.of_nat (List.length (pack_payload vs))))); [|lia].
    rewrite varint_value_of_encoding by assumption. cbn [bind]. subst fuel.
    rewrite Z.add_assoc. rewrite IH by assumption.
    cbn [map]. rewrite <- app_assoc. reflexivity.
Qed.

Lemma ProtoPack_read_encoded T vs p tl k :
  is_varint_type T = true ->
  Forall (fun v => 0 <= v < 2 ^ 63) vs -> 0 <= p ->
  p + Z.of_nat (List.length
                  (varint_encode 8 (Z.of_nat (List.length (pack_payload vs)))))
    + Z.of_nat (List.length (pack_payload vs)) <= INT_MAX ->
  ProtoPack_read (S (List.length vs) + k) T
    (mkStream p (varint_encode 8 (Z.of_nat (List.length (pack_payload vs)))
                   ++ pack_payload vs ++ tl) false false) =
  Ok (map (decoded T) vs,
      mkStream (p + Z.of_nat (List.length
                    (varint_encode 8 (Z.of_nat (List.length (pack_payload vs)))))
                  + Z.of_nat (List.length (pack_payload vs))) tl false false).
Proof.
  intros HT Hvs Hp Hmax. unfold ProtoPack_read.
  set (n := Z.of_nat (List.length (pack_payload vs))) in *.
  set (h := Z.of_nat (List.length (varint_encode 8 n))) in *.
  assert (Hn : 0 <= n) by (unfold n; lia).
  assert (Hh : 0 <= h) by (unfold h; lia).
  rewrite int32_of_encoding by lia. cbn [bind]. rewrite HT. cbn [negb].
  rewrite reserve_ok by lia.
  fold h. unfold tellg at 1. cbn [good eofbit failbit negb andb pos].
  rewrite int_cast_small by lia. unfold int_add.
  replace ((INT_MIN <=? p + h + n) && (p + h + n <=? INT_MAX)) with true
    by (symmetry; apply andb_true_iff; split; apply Z.leb_le; unfold INT_MIN; lia).
  cbn [bind]. unfold n at 1.
  rewrite (ProtoPack_loop_encoded T tl HT vs [] (p + h) k Hvs). cbn [bind app].
  fold n. unfold tellg. cbn [good eofbit failbit negb andb pos].
  rewrite int_cast_small by lia. rewrite Z.eqb_refl. reflexivity.
Qed.

(** X18.  A packed field of an integer type is read as a length and then
    elements until the position announced by the length is reached: on the
    length followed by the encodings of the elements, the reader returns the
    elements in order and leaves the stream just behind them. *)
Theorem packed_varint_reads_the_elements T vs p tl k :
  is_varint_type T = true ->
  Forall (fun v => 0 <= v < 2 ^ 63) vs -> 0 <= p ->
  p + Z.of_nat (List.length
                  (varint_encode 8 (Z.of_nat (List.length (pack_payload vs)))))
    + Z.of_nat (List.length (pack_payload vs)) <= INT_MAX ->
  ProtoPack_read (S (List.length vs) + k) T
    (mkStream p (varint_encode 8 (Z.of_nat (List.length (pack_payload vs)))
                   ++ pack_payload vs ++ tl) false false) =
  Ok (map (decoded T) vs,
      mkStream (p + Z.of_nat (List.length
                    (varint_encode 8 (Z.of_nat (List.length (pack_payload vs)))))
                  + Z.of_nat (List.length (pack_payload vs))) tl false false).
Proof. apply ProtoPack_read_encoded. Qed.

Lemma packed_varint_reads_the_elements_witness :
  ProtoPack_read (S (List.length [3; 270; 86942]) + 0) TInt32
    (mkStream 5 (varint_encode 8 (Z.of_nat (List.length (pack_payload [3; 270; 86942])))
                   ++ pack_payload [3; 270; 86942] ++ [x00]) false false) =
  Ok (map (decoded TInt32) [3; 270; 86942],
      mkStream (5 + Z.of_nat (List.length
                    (varint_encode 8 (Z.of_nat (List.length (pack_payload [3; 270; 86942])))))
                  + Z.of_nat (List.length (pack_payload [3; 270; 86942]))) [x00] false false).
Proof.
  assert (Hvs : Forall (fun v => 0 <= v < 2 ^ 63) [3; 270; 86942])
    by (repeat constructor; lia).
  assert (Hmax : 5 + Z.of_nat (List.length
                  (varint_encode 8 (Z.of_nat (List.length (pack_payload [3; 270; 86942])))))
                 + Z.of_nat (List.length (pack_payload [3; 270; 86942])) <= INT_MAX)
    by (vm_compute; discriminate).
  apply (packed_varint_reads_the_elements TInt32 [3; 270; 86942] 5 [x00] 0%nat
           eq_refl Hvs ltac:(lia) Hmax).
Defined.

Lemma nth_length_last {A : Type} (l : list A) d :
  nth (List.length l - 1) l d = last l d.
Proof.
  induction l as [|a [|b l] IH]; try reflexivity.
  cbn [List.length last] in IH |- *. rewrite <- IH.
  replace (S (S (List.length l)) - 1)%nat with (S (S (List.length l) - 1)) by lia.
  reflexivity.
Qed.

(** X19.  A packed enum field takes the last element of the pack as its
    number: the name registered for that number is the value read, an
    unregistered number is a parse error, and an empty pack fails the index
    assertion of the pack. *)
Theorem packed_enum_takes_the_last vs p tl k enumValues :
  Forall (fun v => 0 <= v < 2 ^ 63) vs -> 0 <= p ->
  p + Z.of_nat (List.length
                  (varint_encode 8 (Z.of_nat (List.length (pack_payload vs)))))
    + Z.of_nat (List.length (pack_payload vs)) <= INT_MAX ->
  ProtoEnum_read (S (List.length vs) + k) true enumValues
    (mkStream p (varint_encode 8 (Z.of_nat (List.length (pack_payload vs)))
                   ++ pack_payload vs ++ tl) false false) =
  match vs with
  | [] => Raise StsAssert
  | _ =>
    match findZ (decoded TInt32 (last vs 0)) enumValues with
    | Some name =>
      Ok (name,
          mkStream (p + Z.of_nat (List.length
                        (varint_encode 8 (Z.of_nat (List.length (pack_payload vs)))))
                      + Z.of_nat (List.length (pack_payload vs))) tl false false)
    | None => Raise StsParseError
    end
  end.
Proof.
  intros Hvs Hp Hmax. unfold ProtoEnum_read.
  rewrite ProtoPack_read_encoded by auto. cbn [bind]. rewrite length_map.
  destruct vs as [|v vs]; [reflexivity|].
  remember (v :: vs) as l eqn:El.
  assert (Hl : (0 < List.length l)%nat) by (subst l; cbn [List.length]; lia).
  destruct (Z.leb_spec 0 (Z.of_nat (List.length l) - 1)); [|lia].
  destruct (Z.ltb_spec (Z.of_nat (List.length l) - 1) (Z.of_nat (List.length l))); [|lia].
  cbn [andb CV_Assert bind].
  replace (Z.to_nat (Z.of_nat (List.length l) - 1)) with (List.length l - 1)%nat by lia.
  replace 0 with (decoded TInt32 0) at 1 by reflexivity.
  rewrite map_nth.
  rewrite nth_length_last.
  subst l. destruct (findZ (decoded TInt32 (last (v :: vs) 0)) enumValues); reflexivity.
Qed.

Lemma packed_enum_takes_the_last_witness :
  ProtoEnum_read (S (List.length [1; 2]) + 0) true [(1, "A"); (2, "B")]
    (mkStream 5 (varint_encode 8 (Z.of_nat (List.length (pack_payload [1; 2])))
                   ++ pack_payload [1; 2] ++ [x00]) false false) =
  match [1; 2] with
  | [] => Raise StsAssert
  | _ =>
    match findZ (decoded TInt32 (last [1; 2] 0)) [(1, "A"); (2, "B")] with
    | Some name =>
      Ok (name,
          mkStream (5 + Z.of_nat (List.length
                        (varint_encode 8 (Z.of_nat (List.length (pack_payload [1; 2])))))
                      + Z.of_nat (List.length (pack_payload [1; 2]))) [x00] false false)
    | None => Raise StsParseError
    end
  end.
Proof.
  assert (Hvs : Forall (fun v => 0 <= v < 2 ^ 63) [1; 2]) by (repeat constructor; lia).
  assert (Hmax : 5 + Z.of_nat (List.length
                  (varint_encode 8 (Z.of_nat (List.length (pack_payload [1; 2])))))
                 + Z.of_nat (List.length (pack_payload [1; 2])) <= INT_MAX)
    by (vm_compute; discriminate).
  apply (packed_enum_takes_the_last [1; 2] 5 [x00] 0%nat [(1, "A"); (2, "B")]
           Hvs ltac:(lia) Hmax).
Defined.

(* ===================================================================== *)
(** * Further properties of the text reader *)
(* ===================================================================== *)

Lemma append_nil_r (s : string) : (s ++ "")%string = s.
Proof. induction s; cbn; congruence. Qed.

Lemma append_assoc (a b c : string) : ((a ++ b) ++ c)%string = (a ++ b ++ c)%string.
Proof. induction a; cbn; congruence. Qed.

Lemma plain_snoc token c :
  plain token = true -> is_separator c = false -> is_brace c = false ->
  plain (token ++ String c "") = true.
Proof.
  intros Hp Hs Hb. induction token as [|d token IH]; cbn [String.append plain] in *.
  - rewrite Hs, Hb. reflexivity.
  - apply andb_true_iff in Hp as [Hd Hp]. rewrite Hd, IH by assumption. reflexivity.
Qed.

Lemma flatten_snoc tokens t : flatten (tokens ++ [t]) = (flatten tokens ++ t)%string.
Proof.
  induction tokens as [|a tokens IH]; cbn [flatten app fold_right] in *.
  - rewrite append_nil_r. reflexivity.
  - fold (flatten (tokens ++ [t])). fold (flatten tokens).
    rewrite IH, append_assoc. reflexivity.
Qed.

Lemma flushToken_ok token tokens :
  plain token = true -> Forall token_ok tokens ->
  Forall token_ok (flushToken token tokens).
Proof.
  intros Hp Ht. unfold flushToken. destruct (String.eqb_spec token ""); [assumption|].
  apply Forall_app. split; [assumption|]. constructor; [|constructor].
  right. right. split; assumption.
Qed.

Lemma flatten_flushToken token tokens :
  flatten (flushToken token tokens) = (flatten tokens ++ token)%string.
Proof.
  unfold flushToken. destruct (String.eqb_spec token "") as [->|].
  - rewrite append_nil_r. reflexivity.
  - apply flatten_snoc.
Qed.

Lemma tokenize_from_spec str : forall token tokens,
  plain token = true -> Forall token_ok tokens ->
  Forall token_ok (tokenize_from token tokens str) /\
  flatten (tokenize_from token tokens str) =
  (flatten tokens ++ token ++ strip str)%string.
Proof.
  induction str as [|c str IH]; intros token tokens Hp Ht; cbn [tokenize_from strip].
  - split; [apply flushToken_ok; assumption|].
    rewrite flatten_flushToken, append_nil_r. reflexivity.
  - destruct (is_separator c) eqn:Hs.
    + destruct (IH "" (flushToken token tokens) eq_refl (flushToken_ok _ _ Hp Ht))
        as [H1 H2].
      split; [exact H1|]. rewrite H2, flatten_flushToken. cbn [String.append].
      rewrite append_assoc. reflexivity.
    + destruct (is_brace c) eqn:Hb.
      * assert (Hc : token_ok (String c "")).
        { unfold is_brace in Hb. apply orb_true_iff in Hb as [Hb|Hb];
            apply Ascii.eqb_eq in Hb; subst c; [left|right; left]; reflexivity. }
        destruct (IH "" (flushToken token tokens ++ [String c ""])%list eq_refl) as [H1 H2].
        { apply Forall_app. split; [apply flushToken_ok; assumption|].
          constructor; [exact Hc|constructor]. }
        split; [exact H1|].
        rewrite H2, flatten_snoc, flatten_flushToken. cbn [String.append].
        rewrite !append_assoc. reflexivity.
      * destruct (IH (token ++ String c "") tokens (plain_snoc _ _ Hp Hs Hb) Ht)
          as [H1 H2].
        split; [exact H1|]. rewrite H2, append_assoc. reflexivity.
Qed.

Lemma flushToken_app token tokens :
  flushToken token tokens = (tokens ++ flushToken token [])%list.
Proof.
  unfold flushToken. destruct (String.eqb token ""); [|reflexivity].
  rewrite app_nil_r. reflexivity.
Qed.

Lemma tokenize_from_app str : forall token tokens,
  tokenize_from token tokens str = (tokens ++ tokenize_from token [] str)%list.
Proof.
  induction str as [|c str IH]; intros token tokens; cbn [tokenize_from].
  - apply flushToken_app.
  - destruct (is_separator c).
    + rewrite IH, (IH _ (flushToken token [])), flushToken_app, app_assoc.
      reflexivity.
    + destruct (is_brace c).
      * rewrite IH, (IH _ (flushToken token [] ++ [String c ""])%list).
        rewrite flushToken_app, !app_assoc. reflexivity.
      * apply IH.
Qed.

Lemma tokenize_from_word w : forall token tokens str,
  plain w = true ->
  tokenize_from token tokens (w ++ str) = tokenize_from (token ++ w) tokens str.
Proof.
  induction w as [|c w IH]; intros token tokens str Hp.
  - cbn [String.append]. rewrite append_nil_r. reflexivity.
  - cbn [plain] in Hp. apply andb_true_iff in Hp as [Hc Hp].
    apply andb_true_iff in Hc as [Hs Hb].
    apply negb_true_iff in Hs, Hb.
    cbn [String.append tokenize_from]. rewrite Hs, Hb, IH by assumption.
    rewrite append_assoc. reflexivity.
Qed.

Lemma brace_is_no_separator c : is_brace c = true -> is_separator c = false.
Proof.
  unfold is_brace. intros H. apply orb_true_iff in H as [H|H];
    apply Ascii.eqb_eq in H; subst c; reflexivity.
Qed.

Lemma flushToken_word w : w <> "" -> flushToken w [] = [w].
Proof.
  intros H. unfold flushToken. destruct (String.eqb_spec w ""); [contradiction|].
  reflexivity.
Qed.

Lemma tokenize_rules : tokenizer_rules tokenize.
Proof.
  unfold tokenizer_rules, tokenize. split; [reflexivity|]. split; [|split].
  - intros c str Hs. cbn [tokenize_from]. rewrite Hs. reflexivity.
  - intros c str Hb. cbn [tokenize_from].
    rewrite (brace_is_no_separator c Hb), Hb. cbn [flushToken String.eqb app].
    apply tokenize_from_app.
  - intros w str Hw Hp Hstr. rewrite tokenize_from_word by assumption.
    cbn [String.append]. destruct str as [|c str]; cbn [tokenize_from].
    + apply flushToken_word. exact Hw.
    + cbn [starts_plain] in Hstr. destruct (is_separator c) eqn:Hs.
      * rewrite flushToken_word by assumption.
        cbn [flushToken String.eqb]. apply tokenize_from_app.
      * cbn [negb andb] in Hstr. apply negb_false_iff in Hstr. rewrite Hstr.
        rewrite flushToken_word by assumption. cbn [flushToken String.eqb app].
        rewrite tokenize_from_app, (tokenize_from_app str "" [String c ""]).
        reflexivity.
Qed.

Lemma word_split str :
  str = (word_of str ++ after_word str)%string /\
  plain (word_of str) = true /\ starts_plain (after_word str) = false /\
  (String.length (after_word str) <= String.length str)%nat.
Proof.
  induction str as [|c str (IH1 & IH2 & IH3 & IH4)];
    [repeat split; reflexivity|].
  cbn [word_of after_word].
  destruct (negb (is_separator c) && negb (is_brace c)) eqn:E.
  - cbn [String.append plain String.length]. rewrite E, IH2, <- IH1.
    repeat split; auto.
  - cbn [String.append plain starts_plain]. rewrite E. repeat split; auto.
Qed.

Lemma rules_determine f : tokenizer_rules f -> forall n str,
  (String.length str <= n)%nat -> f str = tokenize str.
Proof.
  intros (F0 & F1 & F2 & F3). destruct tokenize_rules as (T0 & T1 & T2 & T3).
  induction n as [|n IH]; intros str Hlen.
  - destruct str; [congruence|cbn [String.length] in Hlen; lia].
  - destruct str as [|c str]; [congruence|]. cbn [String.length] in Hlen.
    destruct (is_separator c) eqn:Hs.
    { rewrite F1, T1 by assumption. apply IH. lia. }
    destruct (is_brace c) eqn:Hb.
    { rewrite F2, T2 by assumption. f_equal. apply IH. lia. }
    destruct (word_split (String c str)) as (E & Hp & Hr & _).
    destruct (word_split str) as (_ & _ & _ & Hl).
    cbn [word_of after_word] in E, Hp, Hr. rewrite Hs, Hb in E, Hp, Hr.
    cbn [negb andb] in E, Hp, Hr.
    rewrite E, F3, T3 by (auto; discriminate).
    f_equal. apply IH. lia.
Qed.

Lemma separators_alike a : forall c d b token tokens,
  is_separator c = true -> is_separator d = true ->
  tokenize_from token tokens (a ++ String c b) =
  tokenize_from token tokens (a ++ String d b).
Proof.
  induction a as [|x a IH]; intros c d b token tokens Hc Hd;
    cbn [String.append tokenize_from].
  - rewrite Hc, Hd. reflexivity.
  - destruct (is_separator x); [apply IH; assumption|].
    destruct (is_brace x); apply IH; assumption.
Qed.

(** X20.  [tokenize] obeys four rules that leave no choice: the empty text
    has no token; a separator at the start is dropped; a brace at the start
    is a token of its own; a non-empty run of plain characters at the
    start, ending where the text ends or a separator or brace stands, is one
    token.  Any function that obeys them is [tokenize].  The tokens are
    therefore braces and non-empty plain runs and give, one after the other,
    the text without its separators; and a separator is as good as any
    other, so a quote splits a text exactly as a space in its place does. *)
Theorem tokenize_characterised :
  tokenizer_rules tokenize /\
  (forall f, tokenizer_rules f -> forall str, f str = tokenize str) /\
  (forall str, Forall token_ok (tokenize str) /\
               flatten (tokenize str) = strip str) /\
  (forall a b c d, is_separator c = true -> is_separator d = true ->
                   tokenize (a ++ String c b) = tokenize (a ++ String d b)) /\
  tokenize ("name: " ++ String "034" ("a b" ++ String "034" "")) =
    ["name"; "a"; "b"].
Proof.
  split; [exact tokenize_rules|].
  split; [intros f Hf str; exact (rules_determine f Hf _ str (Nat.le_refl _))|].
  split.
  { intros str.
    destruct (tokenize_from_spec str "" [] eq_refl (Forall_nil _)) as [H1 H2].
    split; [exact H1|exact H2]. }
  split; [intros a b c d Hc Hd; apply separators_alike; assumption|].
  reflexivity.
Qed.

Lemma comment_without_newline comment :
  lacks "010" comment = true -> removeProtoComments_from true comment = "".
Proof.
  induction comment as [|c comment IH]; intros H; [reflexivity|].
  cbn [lacks] in H. apply andb_true_iff in H as [Hc H].
  cbn [removeProtoComments_from].
  destruct (Ascii.eqb c "#"); [exact (IH H)|].
  rewrite Hc. exact (IH H).
Qed.

Lemma comment_to_the_end pre : forall b comment,
  lacks "010" comment = true ->
  removeProtoComments_from b (pre ++ String "#" comment) =
  removeProtoComments_from b pre.
Proof.
  induction pre as [|c pre IH]; intros b comment H.
  - cbn [String.append removeProtoComments_from Ascii.eqb Bool.eqb].
    rewrite comment_without_newline by assumption. destruct b; reflexivity.
  - cbn [String.append removeProtoComments_from].
    destruct (Ascii.eqb c "#"); [apply IH; assumption|].
    destruct b; [apply IH; assumption|]. rewrite IH by assumption. reflexivity.
Qed.

Lemma lacks_app c a b : lacks c (a ++ b) = lacks c a && lacks c b.
Proof.
  induction a as [|d a IH]; cbn [String.append lacks]; [reflexivity|].
  rewrite IH, andb_assoc. reflexivity.
Qed.

Section TextComments.
Variable extract : PrimType -> string -> Z.

(** X21.  A text that ends in a comment with no newline after it loses the
    closing brace that [parse] puts behind the content: the comment runs to
    the end of the wrapped text, and the message is read from the tokens of
    the opening brace and the content before the comment alone. *)
Theorem final_comment_swallows_the_closing_brace fuel m body comment :
  lacks "010" comment = true ->
  parse extract fuel m (Text (body ++ String "#" comment)) =
  let '(r, m') :=
    ProtobufMessage_readText extract fuel m
      (tokenize (removeProtoComments (String "{" body))) in
  (let* _ := r in Ok tt, m').
Proof.
  intros H. cbn [parse]. unfold removeProtoComments.
  replace ("{" ++ (body ++ String "#" comment) ++ "}")%string
    with (String "{" body ++ String "#" (comment ++ "}"))%string
    by (cbn [String.append]; rewrite append_assoc; reflexivity).
  rewrite comment_to_the_end; [reflexivity|].
  rewrite lacks_app, H. reflexivity.
Qed.

End TextComments.

Lemma final_comment_swallows_the_closing_brace_witness :
  parse (fun _ _ => 7) 5%nat
    (addField emptyMessage (ProtoValue TInt32 0) "x" 1 false)
    (Text ("x: 7 " ++ String "#" "seven")) =
  (Undefined,
   ProtobufMessage [("x", [ProtoValue TInt32 7])] [] [(1, ProtoValue TInt32 0)]
     [("x", ProtoValue TInt32 0)] [(1, "x")]).
Proof.
  rewrite (final_comment_swallows_the_closing_brace (fun _ _ => 7) 5%nat
             (addField emptyMessage (ProtoValue TInt32 0) "x" 1 false)
             "x: 7 " "seven" eq_refl).
  reflexivity.
Defined.

Lemma removeProtoComments_from_lacks str : forall b,
  lacks "#" (removeProtoComments_from b str) = true.
Proof.
  induction str as [|c str IH]; intros b; [reflexivity|].
  cbn [removeProtoComments_from]. destruct (Ascii.eqb c "#") eqn:E; [apply IH|].
  destruct b; [apply IH|]. cbn [lacks]. rewrite E, IH. reflexivity.
Qed.

Lemma removeProtoComments_from_id str :
  lacks "#" str = true -> removeProtoComments_from false str = str.
Proof.
  induction str as [|c str IH]; intros H; [reflexivity|].
  cbn [lacks] in H. apply andb_true_iff in H as [Hc H].
  cbn [removeProtoComments_from]. apply negb_true_iff in Hc. rewrite Hc, IH by assumption.
  reflexivity.
Qed.

(** X22.  The text with its comments removed holds no '#', a text that
    holds no '#' is returned as it is, and so removing comments twice is the
    same as removing them once. *)
Theorem removeProtoComments_removes_every_hash str :
  lacks "#" (removeProtoComments str) = true /\
  (lacks "#" str = true -> removeProtoComments str = str) /\
  removeProtoComments (removeProtoComments str) = removeProtoComments str.
Proof.
  unfold removeProtoComments. split; [apply removeProtoComments_from_lacks|].
  split; [apply removeProtoComments_from_id|].
  apply removeProtoComments_from_id, removeProtoComments_from_lacks.
Qed.

(* ===================================================================== *)
(** * Further properties of the network graph *)
(* ===================================================================== *)

Module IntMapFacts.

Lemma find_insert_new {V : Type} k (v : V) m :
  IntMap.find k m = None -> IntMap.find k (IntMap.insert k v m) = Some v.
Proof.
  induction m as [|[k' v'] m IH]; cbn [IntMap.find IntMap.insert]; intros H.
  - rewrite Z.eqb_refl. reflexivity.
  - destruct (Z.eqb_spec k' k) as [->|Hne]; [discriminate|].
    destruct (Z.ltb_spec k k').
    + cbn [IntMap.find]. rewrite Z.eqb_refl. reflexivity.
    + destruct (Z.eqb_spec k k'); [congruence|].
      cbn [IntMap.find]. destruct (Z.eqb_spec k' k); [congruence|]. exact (IH H).
Qed.

Lemma find_insert_other {V : Type} k j (v : V) m :
  j <> k -> IntMap.find j (IntMap.insert k v m) = IntMap.find j m.
Proof.
  intros Hne. induction m as [|[k' v'] m IH]; cbn [IntMap.find IntMap.insert].
  - destruct (Z.eqb_spec k j); [congruence|reflexivity].
  - destruct (Z.ltb_spec k k').
    + cbn [IntMap.find]. destruct (Z.eqb_spec k j); [congruence|reflexivity].
    + destruct (Z.eqb_spec k k'); [reflexivity|].
      cbn [IntMap.find]. destruct (Z.eqb_spec k' j); [reflexivity|exact IH].
Qed.

Lemma In_insert_new {V : Type} k (v : V) m :
  IntMap.find k m = None -> In (k, v) (IntMap.insert k v m).
Proof.
  induction m as [|[k' v'] m IH]; cbn [IntMap.find IntMap.insert]; intros H.
  - left. reflexivity.
  - destruct (Z.eqb_spec k' k) as [->|Hne]; [discriminate|].
    destruct (Z.ltb_spec k k'); [left; reflexivity|].
    destruct (Z.eqb_spec k k'); [congruence|]. right. exact (IH H).
Qed.

Lemma find_update_same {V : Type} k (v : V) m :
  IntMap.find k (IntMap.update k v m) = Some v.
Proof.
  induction m as [|[k' v'] m IH]; cbn [IntMap.find IntMap.update].
  - rewrite Z.eqb_refl. reflexivity.
  - destruct (Z.ltb_spec k k').
    + cbn [IntMap.find]. rewrite Z.eqb_refl. reflexivity.
    + destruct (Z.eqb_spec k k') as [->|Hne]; cbn [IntMap.find].
      * rewrite Z.eqb_refl. reflexivity.
      * destruct (Z.eqb_spec k' k); [congruence|exact IH].
Qed.

Lemma find_update_other {V : Type} k j (v : V) m :
  j <> k -> IntMap.find j (IntMap.update k v m) = IntMap.find j m.
Proof.
  intros Hne. induction m as [|[k' v'] m IH]; cbn [IntMap.find IntMap.update].
  - destruct (Z.eqb_spec k j); [congruence|reflexivity].
  - destruct (Z.ltb_spec k k').
    + cbn [IntMap.find]. destruct (Z.eqb_spec k j); [congruence|reflexivity].
    + destruct (Z.eqb_spec k k') as [->|Hk]; cbn [IntMap.find].
      * destruct (Z.eqb_spec k' j); [congruence|].
        destruct (Z.eqb_spec k' j); [congruence|reflexivity].
      * destruct (Z.eqb_spec k' j); [reflexivity|exact IH].
Qed.

Lemma In_set_insert x s : In x (IntMap.set_insert x s).
Proof.
  induction s as [|y s IH]; cbn [IntMap.set_insert]; [left; reflexivity|].
  destruct (Z.ltb_spec x y); [left; reflexivity|].
  destruct (Z.eqb_spec x y) as [->|]; [left; reflexivity|right; exact IH].
Qed.

Lemma set_insert_keeps x y s : In y s -> In y (IntMap.set_insert x s).
Proof.
  induction s as [|z s IH]; cbn [IntMap.set_insert]; intros H; [destruct H|].
  destruct (Z.ltb_spec x z); [right; exact H|].
  destruct (Z.eqb_spec x z); [exact H|].
  destruct H as [->|H]; [left; reflexivity|right; exact (IH H)].
Qed.

Lemma set_insert_idem x s :
  IntMap.set_insert x (IntMap.set_insert x s) = IntMap.set_insert x s.
Proof.
  induction s as [|y s IH]; cbn [IntMap.set_insert].
  - rewrite Z.ltb_irrefl, Z.eqb_refl. reflexivity.
  - destruct (Z.ltb_spec x y) as [Hlt|Hge].
    + cbn [IntMap.set_insert]. rewrite Z.ltb_irrefl, Z.eqb_refl. reflexivity.
    + destruct (Z.eqb_spec x y) as [->|Hne]; cbn [IntMap.set_insert].
      * rewrite Z.ltb_irrefl, Z.eqb_refl. reflexivity.
      * destruct (Z.ltb_spec x y); [lia|].
        destruct (Z.eqb_spec x y); [congruence|]. rewrite IH. reflexivity.
Qed.

End IntMapFacts.
Import IntMapFacts.

Lemma resize_length {T : Type} n (d : T) v : List.length (resize n d v) = n.
Proof.
  unfold resize. rewrite length_app, length_firstn, repeat_length. lia.
Qed.

Lemma nth_set_nth {T : Type} i (x d : T) v :
  (i < List.length v)%nat -> nth i (set_nth i x v) d = x.
Proof.
  revert i. induction v as [|y v IH]; intros i H; cbn [List.length] in H; [lia|].
  destruct i; cbn [set_nth nth]; [reflexivity|]. apply IH. lia.
Qed.

Lemma set_nth_length {T : Type} i (x : T) v :
  List.length (set_nth i x v) = List.length v.
Proof.
  revert i. induction v as [|y v IH]; intros i; [destruct i; reflexivity|].
  destruct i; cbn [set_nth List.length]; [reflexivity|]. rewrite IH. reflexivity.
Qed.

Lemma set_nth_same {T : Type} i (x d : T) v :
  (i < List.length v)%nat -> nth i v d = x -> set_nth i x v = v.
Proof.
  revert i. induction v as [|y v IH]; intros i H E; cbn [List.length] in H; [lia|].
  destruct i; cbn [set_nth nth] in *; [congruence|].
  rewrite IH by (auto; lia). reflexivity.
Qed.

Lemma addLayer_layers n name type params id n1 :
  addLayer n name type params = Ok (id, n1) ->
  id = lastLayerId n + 1 /\ lastLayerId n1 = id /\
  layers n1 = IntMap.insert id (LayerData_new id name type params) (layers n).
Proof.
  unfold addLayer, int_add. intros H.
  destruct (contains_dot name); [discriminate|].
  destruct (0 <=? getLayerId n name); [discriminate|].
  destruct ((INT_MIN <=? lastLayerId n + 1) && (lastLayerId n + 1 <=? INT_MAX));
    [|discriminate].
  cbn [bind] in H. inversion H; subst. cbn [lastLayerId layers]. auto.
Qed.

(** X23.  A layer that [addLayer] accepts is stored under the returned id
    as a new record with no inputs and no required outputs, so it counts as
    an unconnected output; the records of all other ids are as before and no
    id exceeds the id counter. *)
Theorem addLayer_stores_the_layer n name type params id n1 :
  ids_bounded n ->
  addLayer n name type params = Ok (id, n1) ->
  getLayerData n1 id = Ok (LayerData_new id name type params) /\
  (forall j, j <> id -> getLayerData n1 j = getLayerData n j) /\
  In id (getUnconnectedOutLayers n1) /\
  ids_bounded n1.
Proof.
  intros Hb H. destruct (addLayer_layers _ _ _ _ _ _ H) as (Hid & Hlast & Hl).
  assert (Hnew : IntMap.find id (layers n) = None).
  { destruct (IntMap.find id (layers n)) as [ld|] eqn:E; [|reflexivity].
    apply Hb in E. lia. }
  unfold getLayerData, getUnconnectedOutLayers. rewrite Hl.
  split; [rewrite find_insert_new by assumption; reflexivity|].
  split; [intros j Hj; rewrite find_insert_other by assumption; reflexivity|].
  split.
  - apply in_map_iff. exists (id, LayerData_new id name type params).
    split; [reflexivity|]. apply filter_In. split; [|reflexivity].
    apply In_insert_new. exact Hnew.
  - intros j ld Hj. rewrite Hlast. rewrite Hl in Hj.
    destruct (Z.eq_dec j id) as [->|Hne]; [lia|].
    rewrite find_insert_other in Hj by assumption. apply Hb in Hj. lia.
Qed.

Lemma ids_bounded_new : ids_bounded Impl_new.
Proof.
  intros id ld H. unfold Impl_new in *. cbn [layers lastLayerId IntMap.find] in *.
  destruct (Z.eqb_spec 0 id); [lia|discriminate].
Qed.

Lemma addLayer_stores_the_layer_witness :
  getLayerData
    (mkImpl [(0, mkLayerData (Some 0) "_input" "__NetInputLayer__" emptyParams
                   [] [] [] (Some DataLayer) [] [] [] None);
             (2, LayerData_new 2 "conv" "Convolution" emptyParams)]
            [("_input", 0); ("conv", 2)] 2 false [] 0) 2 =
  Ok (LayerData_new 2 "conv" "Convolution" emptyParams).
Proof.
  exact (proj1 (addLayer_stores_the_layer Impl_new "conv" "Convolution" emptyParams
                  2 _ ids_bounded_new eq_refl)).
Defined.

Lemma addLayerInput_inv ld inNum from ld' :
  addLayerInput ld inNum from = Ok ld' ->
  0 <= inNum /\
  exists pins, ld' = set_inputBlobsId (set_nth (Z.to_nat inNum) from pins) ld /\
               (Z.to_nat inNum < List.length pins)%nat.
Proof.
  unfold addLayerInput. intros H.
  destruct (Z.ltb_spec inNum 0); [discriminate|]. split; [assumption|].
  destruct (Z.leb_spec (Z.of_nat (List.length (inputBlobsId ld))) inNum).
  - cbn [bind] in H. inversion H; subst.
    eexists. split; [reflexivity|]. rewrite resize_length. lia.
  - destruct (LayerPin_valid _ && negb (LayerPin_equal _ from)); [discriminate|].
    cbn [bind] in H. inversion H; subst.
    eexists. split; [reflexivity|]. lia.
Qed.

Lemma connect_inv n out outNum inp inNum n' :
  connect n out outNum inp inNum = Ok n' ->
  exists ldInp pins ldOut,
    0 <= inNum /\ (Z.to_nat inNum < List.length pins)%nat /\
    IntMap.find out (layers n) <> None /\
    IntMap.find inp (layers n) = Some ldInp /\
    IntMap.find out
      (IntMap.update inp
         (set_inputBlobsId (set_nth (Z.to_nat inNum) (mkPin out outNum) pins) ldInp)
         (layers n)) = Some ldOut /\
    n' = set_layers
           (IntMap.update out
              (set_requiredOutputs
                 (IntMap.set_insert outNum (requiredOutputs ldOut)) ldOut)
              (IntMap.update inp
                 (set_inputBlobsId
                    (set_nth (Z.to_nat inNum) (mkPin out outNum) pins) ldInp)
                 (layers n))) n.
Proof.
  unfold connect, getLayerData. intros H.
  destruct (IntMap.find out (layers n)) as [ldo|] eqn:Eo; [|discriminate].
  destruct (IntMap.find inp (layers n)) as [ldInp|] eqn:Ei; [|discriminate].
  cbn [bind] in H.
  destruct (addLayerInput ldInp inNum (mkPin out outNum)) as [ldInp'| | |] eqn:Ea;
    try discriminate.
  cbn [bind] in H.
  destruct (addLayerInput_inv _ _ _ _ Ea) as (H0 & pins & -> & Hlen).
  destruct (IntMap.find out (IntMap.update inp _ (layers n))) as [ldOut|] eqn:Eo';
    [|discriminate].
  inversion H; subst n'. exists ldInp, pins, ldOut.
  repeat split; auto. discriminate.
Qed.

Lemma connect_spec n out outNum inp inNum n' :
  connect n out outNum inp inNum = Ok n' ->
  0 <= inNum /\
  (exists ld, getLayerData n' inp = Ok ld /\
              (Z.to_nat inNum < List.length (inputBlobsId ld))%nat /\
              nth (Z.to_nat inNum) (inputBlobsId ld) defaultPin = mkPin out outNum) /\
  (exists ld, getLayerData n' out = Ok ld /\ In outNum (requiredOutputs ld) /\
              IntMap.set_insert outNum (requiredOutputs ld) = requiredOutputs ld) /\
  (forall j, j <> out -> j <> inp -> getLayerData n' j = getLayerData n j) /\
  layerNameToId n' = layerNameToId n /\ lastLayerId n' = lastLayerId n.
Proof.
  intros H.
  destruct (connect_inv _ _ _ _ _ _ H)
    as (ldInp & pins & ldOut & H0 & Hlen & Ho & Hi & Ho' & ->).
  unfold getLayerData. cbn [set_layers layers layerNameToId lastLayerId].
  split; [assumption|]. split; [|split; [|split; [|split; reflexivity]]].
  - destruct (Z.eq_dec inp out) as [->|Hne].
    + rewrite find_update_same in Ho' |- *. inversion Ho'; subst ldOut.
      eexists. split; [reflexivity|].
      cbn [set_requiredOutputs set_inputBlobsId inputBlobsId].
      rewrite set_nth_length. split; [assumption|]. apply nth_set_nth. assumption.
    + rewrite find_update_other, find_update_same by assumption.
      eexists. split; [reflexivity|]. cbn [set_inputBlobsId inputBlobsId].
      rewrite set_nth_length. split; [assumption|]. apply nth_set_nth. assumption.
  - rewrite find_update_same. eexists. split; [reflexivity|].
    cbn [set_requiredOutputs requiredOutputs].
    split; [apply In_set_insert|apply set_insert_idem].
  - intros j Hjo Hji. rewrite !find_update_other by assumption. reflexivity.
Qed.

(** X24.  A connection that is accepted is recorded on both sides: input
    [inNum] of the consuming layer holds the pin (producer, [outNum]), the
    producer's required outputs hold [outNum], the records of all other
    layers are as before, and neither the name index nor the id counter
    changes. *)
Theorem connect_records_the_link n out outNum inp inNum n' :
  connect n out outNum inp inNum = Ok n' ->
  0 <= inNum /\
  (exists ld, getLayerData n' inp = Ok ld /\
              nth (Z.to_nat inNum) (inputBlobsId ld) defaultPin = mkPin out outNum) /\
  (exists ld, getLayerData n' out = Ok ld /\ In outNum (requiredOutputs ld)) /\
  (forall j, j <> out -> j <> inp -> getLayerData n' j = getLayerData n j) /\
  layerNameToId n' = layerNameToId n /\ lastLayerId n' = lastLayerId n.
Proof.
  intros H.
  destruct (connect_spec _ _ _ _ _ _ H)
    as (H0 & (ld1 & E1 & _ & N1) & (ld2 & E2 & I2 & _) & Hoth & Hn & Hl).
  split; [assumption|]. split; [eauto|]. split; [eauto|]. auto.
Qed.

Lemma connect_records_the_link_witness :
  0 <= 0 /\
  (exists ld, getLayerData linked 2 = Ok ld /\
              nth (Z.to_nat 0) (inputBlobsId ld) defaultPin = mkPin 0 0) /\
  (exists ld, getLayerData linked 0 = Ok ld /\ In 0 (requiredOutputs ld)) /\
  (forall j, j <> 0 -> j <> 2 -> getLayerData linked j = getLayerData twoLayers j) /\
  layerNameToId linked = layerNameToId twoLayers /\
  lastLayerId linked = lastLayerId twoLayers.
Proof. apply (connect_records_the_link twoLayers 0 0 2 0 linked). reflexivity. Defined.

(** X25.  An input takes one source only.  After an accepted connection
    from a valid pin, connecting the same input to any other output of an
    existing layer raises an error, while repeating the same connection is
    accepted and leaves every layer record as it is. *)
Theorem connect_input_has_one_source n out outNum inp inNum n' :
  connect n out outNum inp inNum = Ok n' ->
  0 <= out -> 0 <= outNum ->
  (forall out2 outNum2,
     out2 <> out \/ outNum2 <> outNum ->
     IntMap.find out2 (layers n') <> None ->
     connect n' out2 outNum2 inp inNum = Raise StsError) /\
  (exists n'', connect n' out outNum inp inNum = Ok n'' /\
               forall j, getLayerData n'' j = getLayerData n' j).
Proof.
  intros H Hout HoutNum.
  destruct (connect_spec _ _ _ _ _ _ H)
    as (H0 & (ld1 & E1 & L1 & N1) & (ld2 & E2 & I2 & S2) & _).
  unfold getLayerData in E1, E2.
  destruct (IntMap.find inp (layers n')) as [ldi|] eqn:Ei; [|discriminate].
  destruct (IntMap.find out (layers n')) as [ldo|] eqn:Eo; [|discriminate].
  inversion E1; subst ld1. inversion E2; subst ld2. clear E1 E2.
  assert (Hsize : (Z.of_nat (List.length (inputBlobsId ldi)) <=? inNum) = false)
    by (apply Z.leb_gt; lia).
  assert (Hneg : (inNum <? 0) = false) by (apply Z.ltb_ge; lia).
  split.
  - intros out2 outNum2 Hdiff Hex. unfold connect, getLayerData.
    destruct (IntMap.find out2 (layers n')); [|congruence].
    rewrite Ei. cbn [bind]. unfold addLayerInput. rewrite Hneg, Hsize, N1.
    unfold LayerPin_valid, LayerPin_equal. cbn [lid oid].
    destruct (Z.leb_spec 0 out); [|lia]. destruct (Z.leb_spec 0 outNum); [|lia].
    cbn [andb].
    destruct (Z.eqb_spec out out2); destruct (Z.eqb_spec outNum outNum2);
      cbn [andb negb bind]; try reflexivity.
    destruct Hdiff; congruence.
  - unfold connect, getLayerData. rewrite Eo, Ei. cbn [bind].
    unfold addLayerInput. rewrite Hneg, Hsize, N1.
    unfold LayerPin_equal. cbn [lid oid]. rewrite !Z.eqb_refl.
    cbn [andb negb]. rewrite andb_false_r. cbn [bind].
    rewrite (set_nth_same _ _ defaultPin) by assumption.
    replace (set_inputBlobsId (inputBlobsId ldi) ldi) with ldi by (destruct ldi; reflexivity).
    assert (Hf : IntMap.find out (IntMap.update inp ldi (layers n')) = Some ldo).
    { destruct (Z.eq_dec out inp) as [->|Hne].
      - rewrite find_update_same. congruence.
      - rewrite find_update_other by assumption. exact Eo. }
    rewrite Hf, S2.
    replace (set_requiredOutputs (requiredOutputs ldo) ldo) with ldo
      by (destruct ldo; reflexivity).
    eexists. split; [reflexivity|].
    intros j. cbn [set_layers layers].
    destruct (Z.eq_dec j out) as [->|Hjo].
    + rewrite find_update_same, Eo. reflexivity.
    + rewrite find_update_other by assumption.
      destruct (Z.eq_dec j inp) as [->|Hji].
      * rewrite find_update_same, Ei. reflexivity.
      * rewrite find_update_other by assumption. reflexivity.
Qed.

Lemma connect_input_has_one_source_witness :
  (forall out2 outNum2,
     out2 <> 0 \/ outNum2 <> 0 ->
     IntMap.find out2 (layers linked) <> None ->
     connect linked out2 outNum2 2 0 = Raise StsError) /\
  (exists n'', connect linked 0 0 2 0 = Ok n'' /\
               forall j, getLayerData n'' j = getLayerData linked j).
Proof.
  apply (connect_input_has_one_source twoLayers 0 0 2 0 linked); [reflexivity|lia|lia].
Defined.



Lemma find_map_values {V W : Type} (f : V -> W) k m :
  IntMap.find k (map (fun e => (fst e, f (snd e))) m) =
  option_map f (IntMap.find k m).
Proof.
  induction m as [|[k' v] m IH]; cbn [map IntMap.find fst snd option_map];
    [reflexivity|].
  destruct (k' =? k); [reflexivity|exact IH].
Qed.

(** X27.  A network that was never given an input blob cannot be set up:
    when the input layer (id 0) holds no output blob, [setUpNet] on a
    network that is not yet allocated fails an assertion before any layer is
    created or allocated. *)
Theorem setUpNet_needs_an_input_blob create fuel n :
  netWasAllocated n = false ->
  (forall ld, IntMap.find 0 (layers n) = Some ld -> outputBlobs ld = []) ->
  setUpNet create fuel n = Raise StsAssert.
Proof.
  intros Hflag Hin. unfold setUpNet. rewrite Hflag. cbn [negb].
  unfold allocateLayers, map_at. cbn [set_layers layers].
  rewrite find_map_values.
  destruct (IntMap.find 0 (layers n)) as [ld|] eqn:E; cbn [option_map].
  - cbn [set_flag outputBlobs]. rewrite (Hin ld eq_refl). reflexivity.
  - reflexivity.
Qed.

Lemma setUpNet_needs_an_input_blob_witness :
  setUpNet (fun _ _ => None) 5%nat twoLayers = Raise StsAssert.
Proof.
  apply (setUpNet_needs_an_input_blob (fun _ _ => None) 5%nat twoLayers eq_refl).
  intros ld H. inversion H. reflexivity.
Defined.

Lemma MatShape_eqb_eq a b : MatShape_eqb a b = true <-> a = b.
Proof.
  unfold MatShape_eqb. destruct (list_eq_dec Z.eq_dec a b); split; congruence.
Qed.

Lemma allocateOutputs_spec inplace inputs nOutputs outShapes :
  forall i done todo n outs n',
  allocateOutputs inplace inputs nOutputs i outShapes done todo n = Ok (outs, n') ->
  exists news,
    outs = (done ++ news ++ skipn (List.length outShapes) todo)%list /\
    map shape news = outShapes /\
    (List.length outShapes <= List.length todo)%nat /\
    Forall2 (fun old new => shape old = shape new -> new = old)
            (firstn (List.length outShapes) todo) news /\
    nextBlock n <= nextBlock n' /\
    (map shape (firstn (List.length outShapes) todo) = outShapes ->
     n' = n /\ outs = (done ++ todo)%list).
Proof.
  induction outShapes as [|sh outShapes IH]; intros i done todo n outs n' H.
  - cbn [allocateOutputs] in H. inversion H; subst. exists [].
    cbn [List.length skipn firstn map app]. repeat split; auto; lia.
  - cbn [allocateOutputs] in H. destruct todo as [|blob todo]; [discriminate|].
    assert (Hstep : forall new n1,
      allocateOutputs inplace inputs nOutputs (S i) outShapes
        (done ++ [new]) todo n1 = Ok (outs, n') ->
      shape new = sh -> nextBlock n <= nextBlock n1 ->
      (shape blob = sh -> new = blob /\ n1 = n) ->
      exists news,
        outs = (done ++ news ++ skipn (List.length (sh :: outShapes)) (blob :: todo))%list /\
        map shape news = sh :: outShapes /\
        (List.length (sh :: outShapes) <= List.length (blob :: todo))%nat /\
        Forall2 (fun old new => shape old = shape new -> new = old)
                (firstn (List.length (sh :: outShapes)) (blob :: todo)) news /\
        nextBlock n <= nextBlock n' /\
        (map shape (firstn (List.length (sh :: outShapes)) (blob :: todo)) = sh :: outShapes ->
         n' = n /\ outs = (done ++ blob :: todo)%list)).
    { intros new n1 Hrec Hsh Hnb Hsame.
      destruct (IH _ _ _ _ _ _ Hrec) as (news & -> & Hm & Hlen & Hf & Hb & Hall).
      exists (new :: news). cbn [List.length skipn firstn map app].
      rewrite <- app_assoc. cbn [app].
      split; [reflexivity|]. split; [rewrite Hsh, Hm; reflexivity|].
      split; [lia|]. split.
      - constructor; [|exact Hf]. intros E. apply Hsame. congruence.
      - split; [lia|]. intros E. injection E as E1 E2.
        destruct (Hsame E1) as [-> ->]. destruct (Hall E2) as [-> Ho].
        split; [reflexivity|]. rewrite <- !app_assoc in Ho. cbn [app] in Ho. exact Ho. }
    destruct (MatShape_eqb (shape blob) sh) eqn:Eq; cbn [negb] in H.
    + apply MatShape_eqb_eq in Eq.
      apply (Hstep blob n H Eq); [lia|auto].
    + assert (Hne : shape blob <> sh).
      { intros E. apply MatShape_eqb_eq in E. congruence. }
      destruct inplace.
      * destruct (Nat.eqb (List.length inputs) nOutputs); [|discriminate].
        cbn [CV_Assert bind] in H.
        destruct (nth_error inputs i) as [inp|]; [|discriminate].
        destruct (Mat_total inp =? total sh); [|discriminate].
        cbn [CV_Assert bind] in H.
        apply (Hstep (Mat_reshape inp sh) n H); [reflexivity|lia|].
        intros E. contradiction.
      * cbn [Mat_create] in H.
        apply (Hstep (mkMat sh (Some (nextBlock n))) _ H);
          [reflexivity|cbn [nextBlock]; lia|].
        intros E. contradiction.
Qed.

(** X28.  The output loop of [allocateLayer], when it returns, has given
    each of the first outputs the inferred shape, has kept as they were the
    outputs whose shape already matched and the outputs beyond the inferred
    shapes, and has allocated nothing at all when every shape matched. *)
Theorem allocateOutputs_gives_the_inferred_shapes
    inplace inputs nOutputs outShapes todo n outs n' :
  allocateOutputs inplace inputs nOutputs 0 outShapes [] todo n = Ok (outs, n') ->
  map shape (firstn (List.length outShapes) outs) = outShapes /\
  skipn (List.length outShapes) outs = skipn (List.length outShapes) todo /\
  Forall2 (fun old new => shape old = shape new -> new = old)
          (firstn (List.length outShapes) todo)
          (firstn (List.length outShapes) outs) /\
  (map shape (firstn (List.length outShapes) todo) = outShapes ->
   n' = n /\ outs = todo).
Proof.
  intros H.
  destruct (allocateOutputs_spec _ _ _ _ _ _ _ _ _ _ H)
    as (news & -> & Hm & Hlen & Hf & _ & Hall).
  cbn [app] in *.
  assert (Hn : List.length news = List.length outShapes)
    by (rewrite <- Hm, length_map; reflexivity).
  assert (Hfirst : firstn (List.length outShapes)
                     (news ++ skipn (List.length outShapes) todo) = news).
  { rewrite <- Hn at 1. rewrite firstn_app, Nat.sub_diag, firstn_all.
    cbn [firstn]. apply app_nil_r. }
  assert (Hskip : skipn (List.length outShapes)
                    (news ++ skipn (List.length outShapes) todo) =
                  skipn (List.length outShapes) todo).
  { rewrite <- Hn at 1. rewrite skipn_app, Nat.sub_diag, skipn_all. reflexivity. }
  rewrite Hfirst, Hskip.
  split; [exact Hm|]. split; [reflexivity|]. split; [exact Hf|exact Hall].
Qed.

Lemma allocateOutputs_gives_the_inferred_shapes_witness :
  map shape (firstn (List.length [[1; 3]; [2; 2]])
                    [mkMat [1; 3] (Some 7); mkMat [2; 2] (Some 0)]) = [[1; 3]; [2; 2]] /\
  skipn (List.length [[1; 3]; [2; 2]]) [mkMat [1; 3] (Some 7); mkMat [2; 2] (Some 0)] =
  skipn (List.length [[1; 3]; [2; 2]]) [mkMat [1; 3] (Some 7); emptyMat] /\
  Forall2 (fun old new => shape old = shape new -> new = old)
          (firstn (List.length [[1; 3]; [2; 2]]) [mkMat [1; 3] (Some 7); emptyMat])
          (firstn (List.length [[1; 3]; [2; 2]])
                  [mkMat [1; 3] (Some 7); mkMat [2; 2] (Some 0)]) /\
  (map shape (firstn (List.length [[1; 3]; [2; 2]]) [mkMat [1; 3] (Some 7); emptyMat]) =
   [[1; 3]; [2; 2]] ->
   snd (Mat_create [2; 2] Impl_new) = Impl_new /\
   [mkMat [1; 3] (Some 7); mkMat [2; 2] (Some 0)] = [mkMat [1; 3] (Some 7); emptyMat]).
Proof.
  exact (allocateOutputs_gives_the_inferred_shapes false [] 2%nat
           [[1; 3]; [2; 2]] [mkMat [1; 3] (Some 7); emptyMat] Impl_new
           [mkMat [1; 3] (Some 7); mkMat [2; 2] (Some 0)]
           (snd (Mat_create [2; 2] Impl_new)) eq_refl).
Defined.

(* ===================================================================== *)
(** * Further properties of the Torch importer *)
(* ===================================================================== *)

Section SequentialChildren.
Variable fillChild :
  Module -> AddedModules -> Z -> Z -> TorchImporter ->
  result (Z * AddedModules * TorchImporter).

Lemma fillSequential_app a : forall b am prev out imp,
  fillSequential fillChild (a ++ b) am prev out imp =
  let* (id, am1, imp1) := fillSequential fillChild a am prev out imp in
  fillSequential fillChild b am1 id (match a with [] => out | _ => 0 end) imp1.
Proof.
  induction a as [|m a IH]; intros b am prev out imp; [reflexivity|].
  cbn [app fillSequential].
  destruct (fillChild m am prev out imp) as [[[id am1] imp1]| | |];
    cbn [bind]; try reflexivity.
  rewrite IH. destruct a; reflexivity.
Qed.

End SequentialChildren.

Lemma fill_Sequential p ms am prev out imp :
  fill (sequentialOf p ms) am prev out imp =
  fillSequential fill ms am prev out imp.
Proof. reflexivity. Qed.

(** X29.  A Sequential container inside a Sequential container is
    transparent: importing the outer container gives the same result,
    network and list of added modules as importing it with the children of
    the inner container in the inner container's place.  The one exception
    is an empty inner container standing first while the outer container is
    entered at an output number other than 0. *)
Theorem inner_Sequential_is_transparent p q pre inner post am prev out imp :
  inner <> [] \/ pre <> [] \/ out = 0 ->
  fill (sequentialOf p (pre ++ sequentialOf q inner :: post)) am prev out imp =
  fill (sequentialOf p (pre ++ inner ++ post)) am prev out imp.
Proof.
  intros H. rewrite !fill_Sequential, !fillSequential_app.
  destruct (fillSequential fill pre am prev out imp) as [[[id am1] imp1]| | |];
    cbn [bind]; try reflexivity.
  cbn [fillSequential]. rewrite fill_Sequential, fillSequential_app.
  destruct (fillSequential fill inner am1 id
              (match pre with [] => out | _ :: _ => 0 end) imp1)
    as [[[id2 am2] imp2]| | |]; cbn [bind]; try reflexivity.
  destruct inner as [|m inner]; [|reflexivity].
  destruct pre as [|m pre]; [|reflexivity].
  destruct H as [H|[H| ->]]; congruence.
Qed.

Lemma inner_Sequential_is_transparent_witness :
  fill (sequentialOf emptyParams
          ([mkModule "nn.ReLU" "ReLU" emptyParams []]
           ++ sequentialOf emptyParams [mkModule "nn.Tanh" "TanH" emptyParams []]
           :: [mkModule "nn.Sigmoid" "Sigmoid" emptyParams []]))
       [] 0 0 (mkImporter Impl_new 0) =
  fill (sequentialOf emptyParams
          ([mkModule "nn.ReLU" "ReLU" emptyParams []]
           ++ [mkModule "nn.Tanh" "TanH" emptyParams []]
           ++ [mkModule "nn.Sigmoid" "Sigmoid" emptyParams []]))
       [] 0 0 (mkImporter Impl_new 0).
Proof.
  assert (H : [mkModule "nn.Tanh" "TanH" emptyParams []] <> [] \/
              [mkModule "nn.ReLU" "ReLU" emptyParams []] <> [] \/ 0 = 0)
    by (right; right; reflexivity).
  exact (inner_Sequential_is_transparent emptyParams emptyParams
           [mkModule "nn.ReLU" "ReLU" emptyParams []]
           [mkModule "nn.Tanh" "TanH" emptyParams []]
           [mkModule "nn.Sigmoid" "Sigmoid" emptyParams []]
           [] 0 0 (mkImporter Impl_new 0) H).
Defined.

Lemma Dict_has_get key d :
  Dict_has key d = false -> Dict_get_int key d = Raise StsObjectNotFound.
Proof.
  unfold Dict_has, Dict_get_int. destruct (findS key d); [discriminate|reflexivity].
Qed.

(** X30.  The search of the SpatialMaxUnpooling branch returns the first
    added module that is a Pooling layer with the wanted [indices_blob_id]:
    no module before it is one, and when the search returns nothing no added
    module is one.  The search fails only with an assertion failure, and
    only when it meets, before any such module, a Pooling module whose
    [indices_blob_id] is not an integer; no such module stands before a
    module it returns, nor anywhere when it returns nothing. *)
Theorem findPooling_first_match am indicesBlobId :
  match findPooling am indicesBlobId with
  | Ok (Some e) =>
    exists pre post, am = (pre ++ e :: post)%list /\
                     pooling_for indicesBlobId e /\
                     Forall (fun x => ~ pooling_for indicesBlobId x /\
                                      ~ malformed_pooling x) pre
  | Ok None => Forall (fun x => ~ pooling_for indicesBlobId x /\
                               ~ malformed_pooling x) am
  | Raise err =>
    err = StsAssert /\
    exists pre bad post, am = (pre ++ bad :: post)%list /\
                         malformed_pooling bad /\
                         Forall (fun x => ~ pooling_for indicesBlobId x /\
                                          ~ malformed_pooling x) pre
  | _ => False
  end.
Proof.
  induction am as [|[id m] am IH]; cbn [findPooling]; [constructor|].
  assert (Hskip :
    ~ pooling_for indicesBlobId (id, m) -> ~ malformed_pooling (id, m) ->
    match findPooling am indicesBlobId with
    | Ok (Some e) =>
      exists pre post, ((id, m) :: am = pre ++ e :: post)%list /\
                       pooling_for indicesBlobId e /\
                       Forall (fun x => ~ pooling_for indicesBlobId x /\
                                        ~ malformed_pooling x) pre
    | Ok None => Forall (fun x => ~ pooling_for indicesBlobId x /\
                                 ~ malformed_pooling x) ((id, m) :: am)
    | Raise err =>
      err = StsAssert /\
      exists pre bad post, ((id, m) :: am = pre ++ bad :: post)%list /\
                           malformed_pooling bad /\
                           Forall (fun x => ~ pooling_for indicesBlobId x /\
                                            ~ malformed_pooling x) pre
    | _ => False
    end).
  { intros Hno Hok. destruct (findPooling am indicesBlobId) as [[e|]|err| |]; auto.
    - destruct IH as (pre & post & -> & Hp & Hf).
      exists ((id, m) :: pre), post. split; [reflexivity|]. split; [exact Hp|].
      constructor; [split; assumption|exact Hf].
    - destruct IH as (-> & pre & bad & post & -> & Hb & Hf).
      split; [reflexivity|].
      exists ((id, m) :: pre), bad, post. split; [reflexivity|].
      split; [exact Hb|]. constructor; [split; assumption|exact Hf]. }
  destruct (String.eqb_spec (apiType m) "Pooling") as [Hty|Hty]; cbn [andb].
  - destruct (Dict_has "indices_blob_id" (dict (module_params m))) eqn:Hh.
    + unfold Dict_get_int, Dict_has in *.
      destruct (findS "indices_blob_id" (dict (module_params m))) as [[v|s]|] eqn:Ef;
        try discriminate; cbn [bind].
      * destruct (Z.eqb_spec v indicesBlobId) as [->|Hv].
        -- exists [], am. split; [reflexivity|]. split; [|constructor].
           split; [exact Hty|]. cbn [snd]. unfold Dict_get_int.
           rewrite Ef. reflexivity.
        -- apply Hskip.
           ++ intros [_ Hg]. cbn [snd] in Hg. unfold Dict_get_int in Hg.
              rewrite Ef in Hg. congruence.
           ++ intros [_ [s Hs]]. cbn [snd] in Hs. congruence.
      * split; [reflexivity|]. exists [], (id, m), am.
        split; [reflexivity|]. split; [|constructor].
        split; [exact Hty|]. exists s. exact Ef.
    + apply Hskip.
      * intros [_ Hg]. cbn [snd] in Hg.
        rewrite Dict_has_get in Hg by assumption. discriminate.
      * intros [_ [s Hs]]. cbn [snd] in Hs. unfold Dict_has in Hh.
        rewrite Hs in Hh. discriminate.
  - apply Hskip; intros [Hp _]; contradiction.
Qed.

Lemma findPooling_first_match_witness :
  exists pre post,
    reluAndPooling =
    (pre ++ (3, mkModule "nn.SpatialMaxPooling" "Pooling"
                  (params_set "indices_blob_id" (DInt 7) emptyParams) [])
         :: post)%list /\
    pooling_for 7
      (3, mkModule "nn.SpatialMaxPooling" "Pooling"
            (params_set "indices_blob_id" (DInt 7) emptyParams) []) /\
    Forall (fun x => ~ pooling_for 7 x /\ ~ malformed_pooling x) pre.
Proof. exact (findPooling_first_match reluAndPooling 7). Defined.
